(** * alb: an http.Handler adapter for AWS Lambda behind an ALB

    A shallow embedding of [alb.go] (package [alb]), followed by the
    properties of the adapter. The functions of Go's standard library that
    [alb.go] calls ([strings], [unicode/utf8], [encoding/base64],
    [net/textproto], [net/url]) are embedded first, each after its Go source
    (go1.22); of [net/http] and [net/http/httptest] only the data that the
    adapter writes and reads is kept.

    Conventions.
    - A Go [string] is a byte sequence: Rocq's [string] (8-bit [ascii]).
    - A Go [[]byte] is a [list byte].
    - A Go map is a [gmap]; a map that may be [nil] is an [option] of one,
      and so are the handler and the context, interface values that may be
      [nil].
    - A call that may panic has an [outcome]: it returns or it panics.
    - Go's [int] and [int64] are [Z]; every length here is far below 2^63.
    - [for k, v := range m] visits the entries of [m] in an order the
      runtime chooses: the embedding takes that choice as a parameter
      ([range], see section [Adapter]). *)

From Stdlib Require Import ZArith NArith.
From Stdlib.Strings Require Import Ascii String Byte.
From stdpp Require Import base option list gmap fin_maps strings.

Local Open Scope Z_scope.

(** ** Bytes *)

Abbreviation bytes := (list byte).

(** [byte(x)]: conversion of an unsigned integer to a byte keeps the low
    eight bits. *)
Definition byte_of_N (n : N) : byte := byte_of_ascii (ascii_of_N n).

Definition code (c : ascii) : N := N_of_ascii c.

(** [lo <= c && c <= hi] on bytes. *)
Definition between (lo c hi : ascii) : bool :=
  ((code lo <=? code c) && (code c <=? code hi))%N.

(** ** Errors and panics *)

(** The [error] values the adapter can return: the ones of [net/url] and of
    [encoding/base64]. *)
Inductive error : Type :=
  | ErrorString (msg : string)               (* errors.New, fmt.Errorf without verb *)
  | Errorf (format : string) (a : string)    (* fmt.Errorf(format, a) *)
  | EscapeError (s : string)                 (* url.EscapeError *)
  | InvalidHostError (s : string)            (* url.InvalidHostError *)
  | URLError (op : string) (u : string) (err : error)  (* *url.Error *)
  | CorruptInputError (offset : Z).          (* base64.CorruptInputError *)

(** A Go call either returns or panics. *)
Inductive outcome (A : Type) : Type :=
  | Returns (a : A)
  | Panics (v : string).
Arguments Returns {A} a.
Arguments Panics {A} v.

(** ** package strings *)

Module strings.

Fixpoint HasPrefix (s prefix : string) : bool :=
  match prefix, s with
  | "", _ => true
  | String p prefix', String c s' =>
      if decide (p = c) then HasPrefix s' prefix' else false
  | String _ _, "" => false
  end.

(** [s[:i]] and [s[i:]]. *)
Fixpoint slice_to (i : nat) (s : string) : string :=
  match i, s with
  | S i', String c s' => String c (slice_to i' s')
  | _, _ => ""
  end.

Fixpoint slice_from (i : nat) (s : string) : string :=
  match i, s with
  | S i', String _ s' => slice_from i' s'
  | _, _ => s
  end.

(** [Index] and [LastIndex] return -1 when [substr] is absent: [None]. *)
Fixpoint Index (s substr : string) : option nat :=
  if HasPrefix s substr then Some 0%nat
  else match s with
       | "" => None
       | String _ s' => S <$> Index s' substr
       end.

Fixpoint LastIndex (s substr : string) : option nat :=
  match s with
  | "" => if HasPrefix s substr then Some 0%nat else None
  | String _ s' =>
      match LastIndex s' substr with
      | Some i => Some (S i)
      | None => if HasPrefix s substr then Some 0%nat else None
      end
  end.

Definition Contains (s substr : string) : bool :=
  bool_decide (is_Some (Index s substr)).

Definition HasSuffix (s suffix : string) : bool :=
  bool_decide (String.length suffix ≤ String.length s)%nat &&
  bool_decide (slice_from (String.length s - String.length suffix) s = suffix).

Definition Cut (s sep : string) : string * string * bool :=
  match Index s sep with
  | Some i => (slice_to i s, slice_from (i + String.length sep) s, true)
  | None => (s, "", false)
  end.

(** [Count(s, sep)] for a one-byte [sep]. *)
Fixpoint CountByte (s : string) (c : ascii) : nat :=
  match s with
  | "" => 0%nat
  | String d s' => ((if decide (d = c) then 1 else 0) + CountByte s' c)%nat
  end.

Definition lower (c : ascii) : ascii :=
  if between "A" c "Z" then ascii_of_N (code c + 32) else c.

(** [ToLower] on a string of ASCII bytes (the only use: a URL scheme). *)
Fixpoint ToLower (s : string) : string :=
  match s with
  | "" => ""
  | String c s' => String (lower c) (ToLower s')
  end.

Fixpoint Join (elems : list string) (sep : string) : string :=
  match elems with
  | [] => ""
  | [e] => e
  | e :: elems' => e +:+ sep +:+ Join elems' sep
  end.

End strings.

(** ** package unicode/utf8 *)

Module utf8.

(** The [first] table: for a leading byte, the length of its sequence and
    the range its second byte must lie in; [None] is [xx], an invalid
    leading byte. ASCII bytes are handled before the table is read. *)
Definition first (b : N) : option (nat * (N * N)) :=
  if (b <? 0xC2)%N then None                                 (* 80..C1 *)
  else if (b <=? 0xDF)%N then Some (2%nat, (0x80, 0xBF)%N)       (* s1 *)
  else if (b =? 0xE0)%N then Some (3%nat, (0xA0, 0xBF)%N)        (* s2 *)
  else if (b <=? 0xEC)%N then Some (3%nat, (0x80, 0xBF)%N)       (* s3 *)
  else if (b =? 0xED)%N then Some (3%nat, (0x80, 0x9F)%N)        (* s4 *)
  else if (b <=? 0xEF)%N then Some (3%nat, (0x80, 0xBF)%N)       (* s3 *)
  else if (b =? 0xF0)%N then Some (4%nat, (0x90, 0xBF)%N)        (* s5 *)
  else if (b <=? 0xF3)%N then Some (4%nat, (0x80, 0xBF)%N)       (* s6 *)
  else if (b =? 0xF4)%N then Some (4%nat, (0x80, 0x8F)%N)        (* s7 *)
  else None.                                                 (* F5..FF *)

Definition in_range (lo c hi : N) : bool := ((lo <=? c) && (c <=? hi))%N.

(** A continuation byte: [locb <= c && c <= hicb]. *)
Definition cont (c : byte) : bool := in_range 0x80 (Byte.to_N c) 0xBF.

Fixpoint Valid (p : bytes) : bool :=
  match p with
  | [] => true
  | pi :: p1 =>
      if (Byte.to_N pi <? 0x80)%N then Valid p1
      else match first (Byte.to_N pi) with
           | None => false
           | Some (size, (lo, hi)) =>
               match p1 with
               | [] => false
               | c1 :: p2 =>
                   if negb (in_range lo (Byte.to_N c1) hi) then false
                   else if decide (size = 2%nat) then Valid p2
                   else match p2 with
                        | [] => false
                        | c2 :: p3 =>
                            if negb (cont c2) then false
                            else if decide (size = 3%nat) then Valid p3
                            else match p3 with
                                 | [] => false
                                 | c3 :: p4 =>
                                     if negb (cont c3) then false else Valid p4
                                 end
                        end
               end
           end
  end.

End utf8.

(** ** package encoding/base64: [StdEncoding] *)

Module base64.

Definition encodeStd : string :=
  "ABCDEFGHIJKLMNOPQRSTUVWXYZabcdefghijklmnopqrstuvwxyz0123456789+/".

Definition padChar : ascii := "="%char.

(** [enc.encode[i]] for [i < 64]. *)
Definition encode (i : N) : ascii :=
  default "A"%char (String.get (N.to_nat i) encodeStd).

(** [enc.decodeMap[c]]: the position of [c] in the alphabet, 0xff for a
    byte outside it. *)
Definition decodeMap (c : ascii) : N :=
  match strings.Index encodeStd (String c "") with
  | Some i => N.of_nat i
  | None => 0xff%N
  end.

Definition sextet (val : N) (shift : N) : ascii :=
  encode (N.land (N.shiftr val shift) 0x3F).

Fixpoint Encode (src : bytes) : string :=
  match src with
  | [] => ""
  | [b0] =>
      let val := N.shiftl (Byte.to_N b0) 16 in
      String (sextet val 18) (String (sextet val 12)
        (String padChar (String padChar "")))
  | [b0; b1] =>
      let val := N.lor (N.shiftl (Byte.to_N b0) 16) (N.shiftl (Byte.to_N b1) 8) in
      String (sextet val 18) (String (sextet val 12)
        (String (sextet val 6) (String padChar "")))
  | b0 :: b1 :: b2 :: src' =>
      let val := N.lor (N.lor (N.shiftl (Byte.to_N b0) 16)
                              (N.shiftl (Byte.to_N b1) 8)) (Byte.to_N b2) in
      String (sextet val 18) (String (sextet val 12)
        (String (sextet val 6) (String (sextet val 0) (Encode src'))))
  end.

Definition EncodeToString (src : bytes) : string := Encode src.

Definition is_newline (c : ascii) : bool :=
  bool_decide (c = "010"%char) || bool_decide (c = "013"%char).

(** [for si < len(src) && (src[si] == '\n' || src[si] == '\r') { si++ }] *)
Fixpoint skip_newlines (src : string) (si : Z) : string * Z :=
  match src with
  | String c src' => if is_newline c then skip_newlines src' (si + 1) else (src, si)
  | "" => (src, si)
  end.

(** The end of [decodeQuantum]: [dbuf] holds [dlen] sextets (missing ones
    are zero); the quantum yields [dlen - 1] bytes. *)
Definition quantum_bytes (dbuf : list N) (dlen : nat) : bytes :=
  let d i := default 0%N (dbuf !! i) in
  let val := N.lor (N.lor (N.lor (N.shiftl (d 0%nat) 18) (N.shiftl (d 1%nat) 12))
                          (N.shiftl (d 2%nat) 6)) (d 3%nat) in
  take (dlen - 1) [byte_of_N (N.shiftr val 16); byte_of_N (N.shiftr val 8);
                   byte_of_N val].

(** [Decode]: the loop [for si < len(src) { decodeQuantum ... }], one input
    byte per step. [src] is what is left of the input from index [si] on,
    [j] and [dbuf] are the state of the quantum being read, [dst] the bytes
    decoded so far. (The 8- and 4-byte fast paths of [Decode] produce what
    [decodeQuantum] does on the same bytes.) The result is [dst[:n], err]. *)
Fixpoint Decode (src : string) (si : Z) (j : nat) (dbuf : list N) (dst : bytes)
    : bytes * option error :=
  match src with
  | "" =>
      match j with
      | O => (dst, None)
      | _ => (dst, Some (CorruptInputError (si - Z.of_nat j)))
      end
  | String c src' =>
      let si := si + 1 in
      let out := decodeMap c in
      if negb (out =? 0xff)%N then
        if decide (j = 3%nat)
        then Decode src' si 0%nat [] (dst ++ quantum_bytes (dbuf ++ [out]) 4)
        else Decode src' si (S j) (dbuf ++ [out]) dst
      else if is_newline c then Decode src' si j dbuf dst   (* j--; continue *)
      else if negb (bool_decide (c = padChar)) then
        (dst, Some (CorruptInputError (si - 1)))
      else
        (* We've reached the end and there's padding *)
        let finish (src : string) (si : Z) :=
          let '(src, si) := skip_newlines src si in
          let err := match src with
                     | "" => None
                     | _ => Some (CorruptInputError si)   (* trailing garbage *)
                     end in
          (dst ++ quantum_bytes dbuf j, err) in
        match j with
        | 0%nat | 1%nat => (dst, Some (CorruptInputError (si - 1)))
        | 2%nat =>
            let '(src2, si2) := skip_newlines src' si in
            match src2 with
            | "" => (dst, Some (CorruptInputError si2))    (* not enough padding *)
            | String c2 src3 =>
                if negb (bool_decide (c2 = padChar))
                then (dst, Some (CorruptInputError (si2 - 1)))
                else finish src3 (si2 + 1)
            end
        | _ => finish src' si
        end
  end.

Definition DecodeString (s : string) : bytes * option error :=
  Decode s 0 0%nat [] [].

End base64.

(** ** package net/textproto *)

Module textproto.

(** [validHeaderFieldByte]: the token bytes of RFC 7230. *)
Definition validHeaderFieldByte (c : ascii) : bool :=
  between "a" c "z" || between "A" c "Z" || between "0" c "9" ||
  strings.Contains "!#$%&'*+-.^_`|~" (String c "").

Definition toLower : N := 32.   (* 'a' - 'A' *)

(** The rewriting loop of [canonicalMIMEHeaderKey]: the first letter and
    every letter after a dash in upper case, the others in lower case. *)
Fixpoint canonicalize (a : string) (upper : bool) : string :=
  match a with
  | "" => ""
  | String c a' =>
      let c := if upper && between "a" c "z" then ascii_of_N (code c - toLower)
               else if negb upper && between "A" c "Z" then ascii_of_N (code c + toLower)
               else c in
      String c (canonicalize a' (bool_decide (c = "-"%char)))
  end.

(** The validation loop of [canonicalMIMEHeaderKey]: [None] when a byte
    is neither a token byte nor a space, else [Some noCanon]. *)
Fixpoint looks_like_key (a : string) (noCanon : bool) : option bool :=
  match a with
  | "" => Some noCanon
  | String c a' =>
      if validHeaderFieldByte c then looks_like_key a' noCanon
      else if bool_decide (c = " "%char) then looks_like_key a' true
      else None
  end.

(** [canonicalMIMEHeaderKey(a)]; the table of common headers it consults at
    the end maps a canonical name to an equal string. *)
Definition canonicalMIMEHeaderKey (a : string) : string * bool :=
  match a with
  | "" => ("", false)
  | _ =>
      match looks_like_key a false with
      | None => (a, false)
      | Some true => (a, true)
      | Some false => (canonicalize a true, true)
      end
  end.

(** The scan of [CanonicalMIMEHeaderKey(s)] over [rest], a suffix of [s]. *)
Fixpoint CanonicalMIMEHeaderKey_scan (s rest : string) (upper : bool) : string :=
  match rest with
  | "" => s
  | String c rest' =>
      if negb (validHeaderFieldByte c) then s
      else if upper && between "a" c "z" then (canonicalMIMEHeaderKey s).1
      else if negb upper && between "A" c "Z" then (canonicalMIMEHeaderKey s).1
      else CanonicalMIMEHeaderKey_scan s rest' (bool_decide (c = "-"%char))
  end.

Definition CanonicalMIMEHeaderKey (s : string) : string :=
  CanonicalMIMEHeaderKey_scan s s true.

End textproto.

(** ** package net/url *)

Module url.

Inductive encoding : Set :=
  | encodePath | encodePathSegment | encodeHost | encodeZone
  | encodeUserPassword | encodeQueryComponent | encodeFragment.

Global Instance encoding_eq_dec : EqDecision encoding.
Proof. solve_decision. Defined.

Record Userinfo : Set := {
  username : string;
  password : string;
  passwordSet : bool }.

Record URL : Set := {
  Scheme : string;
  Opaque : string;
  User : option Userinfo;
  Host : string;
  Path : string;
  RawPath : string;
  OmitHost : bool;
  ForceQuery : bool;
  RawQuery : string;
  Fragment : string;
  RawFragment : string }.

Definition ishex (c : ascii) : bool :=
  between "0" c "9" || between "a" c "f" || between "A" c "F".

Definition unhex (c : ascii) : N :=
  if between "0" c "9" then code c - code "0"
  else if between "a" c "f" then code c - code "a" + 10
  else if between "A" c "F" then code c - code "A" + 10
  else 0.

Definition is_one_of (c : ascii) (set : string) : bool :=
  strings.Contains set (String c "").

Definition shouldEscape (c : ascii) (mode : encoding) : bool :=
  if between "a" c "z" || between "A" c "Z" || between "0" c "9" then false
  else if bool_decide (mode = encodeHost ∨ mode = encodeZone) &&
          (is_one_of c "!$&'()*+,;=:[]<>" || bool_decide (c = "034"%char)) then false
  else if is_one_of c "-_.~" then false
  else if is_one_of c "$&+,/:;=?@" then
    match mode with
    | encodePath => bool_decide (c = "?"%char)
    | encodePathSegment => is_one_of c "/;,?"
    | encodeUserPassword => is_one_of c "@/?:"
    | encodeQueryComponent => true
    | encodeFragment => false
    | _ => true
    end
  else if bool_decide (mode = encodeFragment) && is_one_of c "!()*" then false
  else true.

(** The byte a [%XX] triple stands for. *)
Definition unhex2 (h1 h2 : ascii) : ascii :=
  ascii_of_N (N.lor (N.shiftl (unhex h1) 4) (unhex h2)).

(** First loop of [unescape]: the escapes are well formed (and allowed in
    a host or zone). [None] when nothing is wrong. *)
Fixpoint unescape_check (s : string) (mode : encoding) : option error :=
  match s with
  | "" => None
  | String "%" (String h1 (String h2 s')) =>
      if negb (ishex h1 && ishex h2) then Some (EscapeError (strings.slice_to 3 s))
      else if bool_decide (mode = encodeHost) && (unhex h1 <? 8)%N &&
              negb (bool_decide (strings.slice_to 3 s = "%25"))
      then Some (EscapeError (strings.slice_to 3 s))
      else if bool_decide (mode = encodeZone) &&
              negb (bool_decide (strings.slice_to 3 s = "%25")) &&
              negb (bool_decide (unhex2 h1 h2 = " "%char)) &&
              shouldEscape (unhex2 h1 h2) encodeHost
      then Some (EscapeError (strings.slice_to 3 s))
      else unescape_check s' mode
  | String "%" _ => Some (EscapeError (strings.slice_to 3 s))
  | String c s' =>
      if bool_decide (mode = encodeHost ∨ mode = encodeZone) &&
         (code c <? 0x80)%N && shouldEscape c encodeHost &&
         negb (bool_decide (c = "+"%char))
      then Some (InvalidHostError (String c ""))
      else unescape_check s' mode
  end.

(** Second loop of [unescape]; it runs on checked input only. *)
Fixpoint unescape_build (s : string) (mode : encoding) : string :=
  match s with
  | "" => ""
  | String "%" (String h1 (String h2 s')) => String (unhex2 h1 h2) (unescape_build s' mode)
  | String "+" s' =>
      String (if bool_decide (mode = encodeQueryComponent) then " " else "+")%char
             (unescape_build s' mode)
  | String c s' => String c (unescape_build s' mode)
  end.

Definition unescape (s : string) (mode : encoding) : error + string :=
  match unescape_check s mode with
  | Some err => inl err
  | None => inr (unescape_build s mode)
  end.

Definition QueryUnescape (s : string) : error + string :=
  unescape s encodeQueryComponent.

Definition upperhex (n : N) : ascii :=
  default "0"%char (String.get (N.to_nat n) "0123456789ABCDEF").

Fixpoint escape (s : string) (mode : encoding) : string :=
  match s with
  | "" => ""
  | String c s' =>
      if bool_decide (c = " "%char) && bool_decide (mode = encodeQueryComponent)
      then String "+" (escape s' mode)
      else if shouldEscape c mode
      then String "%" (String (upperhex (N.shiftr (code c) 4))
                        (String (upperhex (N.land (code c) 15)) (escape s' mode)))
      else String c (escape s' mode)
  end.

(** [getScheme]: [rest] is [rawURL[i:]]. *)
Fixpoint getScheme_loop (rawURL rest : string) (i : nat) : error + string * string :=
  match rest with
  | "" => inr ("", rawURL)
  | String c rest' =>
      if between "a" c "z" || between "A" c "Z" then getScheme_loop rawURL rest' (S i)
      else if between "0" c "9" || is_one_of c "+-." then
        if decide (i = 0%nat) then inr ("", rawURL)
        else getScheme_loop rawURL rest' (S i)
      else if bool_decide (c = ":"%char) then
        if decide (i = 0%nat) then inl (ErrorString "missing protocol scheme")
        else inr (strings.slice_to i rawURL, rest')
      else inr ("", rawURL)
  end.

Definition getScheme (rawURL : string) : error + string * string :=
  getScheme_loop rawURL rawURL 0.

Fixpoint all_bytes (p : ascii → bool) (s : string) : bool :=
  match s with
  | "" => true
  | String c s' => p c && all_bytes p s'
  end.

Definition stringContainsCTLByte (s : string) : bool :=
  negb (all_bytes (λ b, negb ((code b <? code " ")%N || (code b =? 0x7f)%N)) s).

Definition validOptionalPort (port : string) : bool :=
  match port with
  | "" => true
  | String c port' => bool_decide (c = ":"%char) && all_bytes (λ b, between "0" b "9") port'
  end.

(** [for _, r := range s] decodes runes; every byte outside ASCII belongs
    to a rune that the [switch] rejects. *)
Definition validUserinfo (s : string) : bool :=
  all_bytes (λ r, between "A" r "Z" || between "a" r "z" || between "0" r "9" ||
                   is_one_of r "-._:~!$&'()*+,;=%@") s.

Definition parseHost (host : string) : error + string :=
  let plain := unescape host encodeHost in
  if strings.HasPrefix host "[" then
    match strings.LastIndex host "]" with
    | None => inl (ErrorString "missing ']' in host")
    | Some i =>
        let colonPort := strings.slice_from (i + 1) host in
        if negb (validOptionalPort colonPort)
        then inl (Errorf "invalid port %q after host" colonPort)
        else match strings.Index (strings.slice_to i host) "%25" with
             | Some zone =>
                 match unescape (strings.slice_to zone host) encodeHost with
                 | inl err => inl err
                 | inr host1 =>
                     match unescape (strings.slice_to (i - zone)
                                       (strings.slice_from zone host)) encodeZone with
                     | inl err => inl err
                     | inr host2 =>
                         match unescape (strings.slice_from i host) encodeHost with
                         | inl err => inl err
                         | inr host3 => inr (host1 +:+ host2 +:+ host3)
                         end
                     end
                 end
             | None => plain
             end
    end
  else
    match strings.LastIndex host ":" with
    | Some i =>
        let colonPort := strings.slice_from i host in
        if negb (validOptionalPort colonPort)
        then inl (Errorf "invalid port %q after host" colonPort)
        else plain
    | None => plain
    end.

Definition parseAuthority (authority : string) : error + option Userinfo * string :=
  let i := strings.LastIndex authority "@" in
  match parseHost (match i with
                   | None => authority
                   | Some i => strings.slice_from (i + 1) authority
                   end) with
  | inl err => inl err
  | inr host =>
      match i with
      | None => inr (None, host)
      | Some i =>
          let userinfo := strings.slice_to i authority in
          if negb (validUserinfo userinfo)
          then inl (ErrorString "net/url: invalid userinfo")
          else if negb (strings.Contains userinfo ":") then
            match unescape userinfo encodeUserPassword with
            | inl err => inl err
            | inr userinfo =>
                inr (Some {| username := userinfo; password := "";
                             passwordSet := false |}, host)
            end
          else
            let '(username, password, _) := strings.Cut userinfo ":" in
            match unescape username encodeUserPassword with
            | inl err => inl err
            | inr username =>
                match unescape password encodeUserPassword with
                | inl err => inl err
                | inr password =>
                    inr (Some {| username := username; password := password;
                                 passwordSet := true |}, host)
                end
            end
      end
  end.

(** [u.setPath(p)]: the decoded path, and [p] itself as [RawPath] when the
    default escaping of the decoded path differs from it. *)
Definition setPath (p : string) : error + string * string :=
  match unescape p encodePath with
  | inl err => inl err
  | inr path =>
      inr (path, if bool_decide (p = escape path encodePath) then "" else p)
  end.

Definition setFragment (f : string) : error + string * string :=
  match unescape f encodeFragment with
  | inl err => inl err
  | inr frag =>
      inr (frag, if bool_decide (f = escape frag encodeFragment) then "" else f)
  end.

(** The step of [parse] that cuts the query off: a lone question mark at
    the end sets [ForceQuery], otherwise the text after the first question
    mark is the raw query. The result is [(rest, ForceQuery, RawQuery)]. *)
Definition cut_query (rest : string) : string * bool * string :=
  if strings.HasSuffix rest "?" && bool_decide (strings.CountByte rest "?" = 1%nat)
  then (strings.slice_to (String.length rest - 1) rest, true, "")
  else let '(rest, rawQuery, _) := strings.Cut rest "?" in
       (rest, false, rawQuery).

(** [parse(rawURL, viaRequest)] with [viaRequest = false], as [Parse]
    calls it. *)
Definition parse (rawURL : string) : error + URL :=
  if stringContainsCTLByte rawURL
  then inl (ErrorString "net/url: invalid control character in URL")
  else if bool_decide (rawURL = "*")
  then inr {| Scheme := ""; Opaque := ""; User := None; Host := ""; Path := "*";
              RawPath := ""; OmitHost := false; ForceQuery := false;
              RawQuery := ""; Fragment := ""; RawFragment := "" |}
  else
    match getScheme rawURL with
    | inl err => inl err
    | inr (scheme, rest) =>
        let scheme := strings.ToLower scheme in
        let '(rest, forceQuery, rawQuery) := cut_query rest in
        if negb (strings.HasPrefix rest "/") && negb (bool_decide (scheme = ""))
        then
          (* a rootless path is opaque *)
          inr {| Scheme := scheme; Opaque := rest; User := None; Host := "";
                 Path := ""; RawPath := ""; OmitHost := false;
                 ForceQuery := forceQuery; RawQuery := rawQuery;
                 Fragment := ""; RawFragment := "" |}
        else if negb (strings.HasPrefix rest "/") &&
                strings.Contains (strings.Cut rest "/").1.1 ":"
        then inl (ErrorString "first path segment in URL cannot contain colon")
        else
          let with_path user host omitHost rest :=
            match setPath rest with
            | inl err => inl err
            | inr (path, rawPath) =>
                inr {| Scheme := scheme; Opaque := ""; User := user; Host := host;
                       Path := path; RawPath := rawPath; OmitHost := omitHost;
                       ForceQuery := forceQuery; RawQuery := rawQuery;
                       Fragment := ""; RawFragment := "" |}
            end in
          if (negb (bool_decide (scheme = "")) || negb (strings.HasPrefix rest "///")) &&
             strings.HasPrefix rest "//"
          then
            let authority := strings.slice_from 2 rest in
            let '(authority, rest) :=
              match strings.Index authority "/" with
              | Some i => (strings.slice_to i authority, strings.slice_from i authority)
              | None => (authority, "")
              end in
            match parseAuthority authority with
            | inl err => inl err
            | inr (user, host) => with_path user host false rest
            end
          else
            with_path None ""
              (negb (bool_decide (scheme = "")) && strings.HasPrefix rest "/") rest
    end.

Definition Parse (rawURL : string) : error + URL :=
  let '(u, frag, _) := strings.Cut rawURL "#" in
  match parse u with
  | inl err => inl (URLError "parse" u err)
  | inr url =>
      if bool_decide (frag = "") then inr url
      else match setFragment frag with
           | inl err => inl (URLError "parse" rawURL err)
           | inr (fragment, rawFragment) =>
               inr {| Scheme := Scheme url; Opaque := Opaque url; User := User url;
                      Host := Host url; Path := Path url; RawPath := RawPath url;
                      OmitHost := OmitHost url; ForceQuery := ForceQuery url;
                      RawQuery := RawQuery url;
                      Fragment := fragment; RawFragment := rawFragment |}
           end
  end.

(** [url.Values]. *)
Abbreviation Values := (gmap string (list string)).

(** [m[key] = append(m[key], value)]. *)
Definition Values_append (m : Values) (key value : string) : Values :=
  <[key := default [] (m !! key) ++ [value]]> m.

(** [v.Get(key)]: the first value of [key], or the empty string. *)
Definition Values_Get (v : Values) (key : string) : string :=
  match v !! key with
  | Some (value :: _) => value
  | _ => ""
  end.

(** [parseQuery(m, query)]: the loop [for query != ""], which shortens
    [query] at each turn; [fuel] bounds the number of turns. *)
Fixpoint parseQuery (fuel : nat) (m : Values) (query : string) (err : option error)
    : Values * option error :=
  match fuel with
  | O => (m, err)
  | S fuel =>
      if bool_decide (query = "") then (m, err)
      else
        let '(key, query, _) := strings.Cut query "&" in
        if strings.Contains key ";" then
          parseQuery fuel m query
            (Some (ErrorString "invalid semicolon separator in query"))
        else if bool_decide (key = "") then parseQuery fuel m query err
        else
          let '(key, value, _) := strings.Cut key "=" in
          match QueryUnescape key with
          | inl err1 => parseQuery fuel m query (if err is None then Some err1 else err)
          | inr key =>
              match QueryUnescape value with
              | inl err1 => parseQuery fuel m query (if err is None then Some err1 else err)
              | inr value => parseQuery fuel (Values_append m key value) query err
              end
          end
  end.

Definition ParseQuery (query : string) : Values * option error :=
  parseQuery (String.length query) ∅ query None.

(** [u.Query()]: [v, _ := ParseQuery(u.RawQuery)]. *)
Definition Query (u : URL) : Values := (ParseQuery (RawQuery u)).1.

End url.

(** ** package context *)

(** A [context.Context] that is not nil: the adapter only hands it on to
    the handler. An argument of type [context.Context] is an
    [option Context], [None] being nil. *)
Inductive Context : Set :=
  | Background
  | WithValue (parent : Context) (key val : string).

(** ** package net/http *)

Module http.

(** [http.Header]. *)
Abbreviation Header := (gmap string (list string)).

Definition Header_Get (h : Header) (key : string) : string :=
  match h !! textproto.CanonicalMIMEHeaderKey key with
  | Some (v :: _) => v
  | _ => ""
  end.

Definition Header_Add (h : Header) (key value : string) : Header :=
  let key := textproto.CanonicalMIMEHeaderKey key in
  <[key := default [] (h !! key) ++ [value]]> h.

Definition Header_Set (h : Header) (key value : string) : Header :=
  <[textproto.CanonicalMIMEHeaderKey key := [value]]> h.

(** The fields of [http.Request] that the adapter sets. [Body] is the
    content its reader yields. *)
Module Request.
Record t : Type := mk {
  ProtoMajor : Z;
  ProtoMinor : Z;
  Proto : string;
  Method : string;
  URL : url.URL;
  Header : http.Header;
  Host : string;
  ctx : Context;
  Body : bytes;
  ContentLength : Z }.
End Request.

(** The fields of the [http.Response] of [recorder.Result()] that the
    adapter reads. The recorder allocates its header map and [Result]
    returns a clone of it: [Header] is never nil. *)
Module Response.
Record t : Type := mk {
  StatusCode : Z;
  Status : string;
  Header : http.Header }.
End Response.

End http.

(** ** package net/http/httptest *)

Module httptest.

(** What the adapter reads back from the [ResponseRecorder] once the
    handler has returned: [recorder.Result()] and [recorder.Body.Bytes()]. *)
Record Recorded : Type := {
  Result : http.Response.t;
  Body_Bytes : bytes }.

End httptest.

(** An [http.Handler], seen from the adapter: [ServeHTTP(recorder, r)] on a
    fresh recorder either returns, leaving a recorded response, or panics. *)
Definition http_Handler : Type := http.Request.t → outcome httptest.Recorded.

(** ** package alb *)

Module request.
Record t : Type := mk {
  Method : string;
  Path : string;
  Query : option (gmap string string);
  MultiValueQuery : option (gmap string (list string));
  Headers : option (gmap string string);
  MultiValueHeaders : option (gmap string (list string));
  Body : string;
  BodyEncoded : bool }.
End request.
Abbreviation request := request.t.

Module response.
Record t : Type := mk {
  StatusCode : Z;
  Status : string;
  Headers : option (gmap string string);
  MultiValueHeaders : option (gmap string (list string));
  Body : string;
  BodyEncoded : bool }.
End response.
Abbreviation response := response.t.

(** [[]byte(s)] and [string(b)]. *)
Definition bytes_of_string (s : string) : bytes := list_byte_of_string s.
Definition string_of_bytes (b : bytes) : string := string_of_list_byte b.

(** The entries of a map that may be nil: [len] and [range] treat a nil map
    as an empty one. *)
Definition entries {V} (m : option (gmap string V)) : gmap string V := default ∅ m.

(** An iteration order: for every map, a listing of its entries. *)
Definition iteration : Type := ∀ V, gmap string V → list (string * V).

(** The orders Go allows: each entry once. *)
Definition range_ok (range : iteration) : Prop :=
  ∀ V (m : gmap string V), range V m ≡ₚ map_to_list m.

Section Adapter.

(** The order in which this run's [for ... range] loops visit a map. *)
Variable range : iteration.

Definition HeadersProvided (r : request) : gmap string (list string) :=
  match request.MultiValueHeaders r with
  | None =>
      foldl (λ container kv, <[kv.1 := [kv.2]]> container) ∅
            (range _ (entries (request.Headers r)))
  | Some m => m
  end.

Definition QueryProvided (r : request) : gmap string (list string) :=
  match request.MultiValueQuery r with
  | None =>
      foldl (λ container kv, <[kv.1 := [kv.2]]> container) ∅
            (range _ (entries (request.Query r)))
  | Some m => m
  end.

Definition SetHeaders (r : response) (req : request) (res : http.Response.t) : response :=
  match request.MultiValueHeaders req with
  | None =>
      let Headers :=
        foldl (λ Headers kvv, <[kvv.1 := strings.Join kvv.2 ","]> Headers) ∅
              (range _ (http.Response.Header res)) in
      response.mk (response.StatusCode r) (response.Status r) (Some Headers)
                  (response.MultiValueHeaders r) (response.Body r)
                  (response.BodyEncoded r)
  | Some _ =>
      response.mk (response.StatusCode r) (response.Status r) (response.Headers r)
                  (Some (http.Response.Header res)) (response.Body r)
                  (response.BodyEncoded r)
  end.

(** The body of the inner loop of [buildURL]: one value [vv] of key [k];
    [b] is the builder's content and [i] the count of pairs written. *)
Definition buildURL_pair (k : string) (bi : string * Z) (vv : string) : string * Z :=
  let '(b, i) := bi in
  let b := if bool_decide (i ≠ 0) then b +:+ "&" else b in
  let b := b +:+ k in
  let b := b +:+ "=" in
  let b := b +:+ vv in
  (b, i + 1).

(** The string that [buildURL] hands to [url.Parse] when [query] is not
    empty. *)
Definition buildURL_string (path : string) (query : gmap string (list string)) : string :=
  let b := "" in
  let b := b +:+ path in
  let b := b +:+ "?" in
  (foldl (λ bi kv, foldl (buildURL_pair kv.1) bi kv.2) (b, 0) (range _ query)).1.

(** [buildURL(path, query)]. [Run] passes the map of [QueryProvided], which
    is never nil; a nil map has no entry either. *)
Definition buildURL (path : string) (query : gmap string (list string)) : error + url.URL :=
  if bool_decide (size query = 0%nat) then url.Parse path
  else url.Parse (buildURL_string path query).

(** [Run], lines 118-148: the request handed to the handler, or the error
    that ends the run before the handler is called, or the panic of
    [r.WithContext(ctx)] on a nil context, which [net/http] raises once the
    URL and the headers are built and before the body is looked at. *)
Definition Run_request (ctx : option Context) (req : request)
    : outcome (error + http.Request.t) :=
  match buildURL (request.Path req) (QueryProvided req) with
  | inl err => Returns (inl err)
  | inr u =>
      let headers : http.Header :=
        foldl (λ headers kv, <[textproto.CanonicalMIMEHeaderKey kv.1 := kv.2]> headers) ∅
              (range _ (HeadersProvided req)) in
      match ctx with
      | None => Panics "nil context"
      | Some ctx =>
          let r (Body : bytes) (ContentLength : Z) :=
            http.Request.mk 1 1 "HTTP/1.1" (request.Method req) u headers
                            (http.Header_Get headers "Host") ctx Body ContentLength in
          if request.BodyEncoded req then
            let '(b, err) := base64.DecodeString (request.Body req) in
            match err with
            | Some err => Returns (inl err)
            | None => Returns (inr (r b (Z.of_nat (length b))))
            end
          else
            Returns (inr (r (bytes_of_string (request.Body req))
                            (Z.of_nat (String.length (request.Body req)))))
      end
  end.

(** [Run], lines 151-163: the reply made from the recorded response. *)
Definition Run_reply (req : request) (recorder : httptest.Recorded) : response :=
  let res := httptest.Result recorder in
  let out := response.mk (http.Response.StatusCode res) (http.Response.Status res)
                         None None "" false in
  let out := SetHeaders out req res in
  let b := httptest.Body_Bytes recorder in
  if utf8.Valid b then
    response.mk (response.StatusCode out) (response.Status out) (response.Headers out)
                (response.MultiValueHeaders out) (string_of_bytes b)
                (response.BodyEncoded out)
  else
    response.mk (response.StatusCode out) (response.Status out) (response.Headers out)
                (response.MultiValueHeaders out) (base64.EncodeToString b) true.

(** [lambdaHandler.Run(ctx, req)]: the pair of a reply and an error that it
    returns, or the panic that leaves it. Nothing in [Run] recovers. *)
Definition Run (h : http_Handler) (ctx : option Context) (req : request)
    : outcome (option response * option error) :=
  match Run_request ctx req with
  | Panics v => Panics v
  | Returns (inl err) => Returns (None, Some err)
  | Returns (inr r) =>
      match h r with
      | Panics v => Panics v
      | Returns recorder => Returns (Some (Run_reply req recorder), None)
      end
  end.

(** [Handler(h)]: panics on a nil handler, else returns [hh.Run]. *)
Definition Handler (h : option http_Handler)
    : outcome (option Context → request → outcome (option response * option error)) :=
  match h with
  | None => Panics "Wrap called with nil handler"
  | Some h => Returns (Run h)
  end.

End Adapter.

(** ** Vocabulary of the properties *)

(** The order of [map_to_list]: one of the orders the runtime may pick. *)
Definition in_map_order : iteration := λ V, map_to_list.

(** The byte [c] occurs in [s]. *)
Fixpoint has_byte (c : ascii) (s : string) : bool :=
  match s with
  | "" => false
  | String d s' => bool_decide (d = c) || has_byte c s'
  end.

(** The [key=value] pairs of a query, one per value, keys in the order of
    [kvs] and the values of a key in their own order. *)
Definition query_pairs (kvs : list (string * list string)) : list (string * string) :=
  kvs ≫= λ kv, (λ vv, (kv.1, vv)) <$> kv.2.

Definition pair_string (p : string * string) : string := p.1 +:+ "=" +:+ p.2.

(** [buildURL] as the specification words it, on the entries [kvs] of the
    query mapping: the path alone when there is none, else the path, a
    question mark and the pairs joined by ampersands. *)
Definition buildURL_spec (path : string) (kvs : list (string * list string))
    : error + url.URL :=
  match kvs with
  | [] => url.Parse path
  | _ => url.Parse (path +:+ "?" +:+ strings.Join (pair_string <$> query_pairs kvs) "&")
  end.

(** A percent-escaped query component, as [url.QueryEscape] writes them:
    unreserved bytes, [+] for a space, and [%XX] triples. *)
Fixpoint percent_escaped (s : string) : bool :=
  match s with
  | "" => true
  | String "%" (String h1 (String h2 s')) =>
      url.ishex h1 && url.ishex h2 && percent_escaped s'
  | String "%" _ => false
  | String c s' =>
      (bool_decide (c = "+"%char) || negb (url.shouldEscape c url.encodeQueryComponent))
      && percent_escaped s'
  end.

(** The component a percent-escaped string stands for. *)
Definition decoded (s : string) : string := url.unescape_build s url.encodeQueryComponent.

(** Two spellings of one header name: equal up to the case of letters. *)
Definition same_name (s t : string) : Prop := strings.ToLower s = strings.ToLower t.

(** A header name proper: token bytes only. *)
Definition token (s : string) : bool := url.all_bytes textproto.validHeaderFieldByte s.

(** A handler that panics whatever the request. *)
Definition panicking (v : string) : http_Handler := λ _, Panics v.

(** A handler that replies 200 with the request body and no header. *)
Definition echo : http_Handler := λ r,
  Returns {| httptest.Result := http.Response.mk 200 "200 OK" ∅;
             httptest.Body_Bytes := http.Request.Body r |}.

(** A handler that replies 200 with the given header map and body. *)
Definition replying (h : http.Header) (body : bytes) : http_Handler := λ _,
  Returns {| httptest.Result := http.Response.mk 200 "200 OK" h;
             httptest.Body_Bytes := body |}.

(** A handler that replies 200 and writes [f r] as the body. *)
Definition writing (f : http.Request.t → string) : http_Handler := λ r,
  Returns {| httptest.Result := http.Response.mk 200 "200 OK" ∅;
             httptest.Body_Bytes := bytes_of_string (f r) |}.

(** The body and the flag of a reply, or [None] when the run ends with an
    error. *)
Definition reply_body (res : outcome (option response * option error))
    : option (string * bool) :=
  match res with
  | Returns (Some out, None) => Some (response.Body out, response.BodyEncoded out)
  | _ => None
  end.

(** [f] of the value returned, when there is no error. *)
Definition of_success {A B} (f : A → B) (x : error + A) : error + B := sum_map id f x.

(** [f] of the request built, when one is. *)
Definition of_request {B} (f : http.Request.t → B)
    (x : outcome (error + http.Request.t)) : option B :=
  match x with
  | Returns (inr r) => Some (f r)
  | _ => None
  end.

(** [request{Method: "GET", Path: path}]. *)
Definition get (path : string) : request :=
  request.mk "GET" path None None None None "" false.

(** The order of [map_to_list] reversed: another order the runtime may
    pick. *)
Definition in_reverse_order : iteration := λ V m, reverse (map_to_list m).

(** The bytes an event carries as its body: the body string, decoded when
    the event says it is encoded. *)
Definition request_bytes (req : request) : bytes * option error :=
  if request.BodyEncoded req then base64.DecodeString (request.Body req)
  else (bytes_of_string (request.Body req), None).

(** The bytes a client reads from a reply: the body string, decoded when the
    reply says it is encoded. *)
Definition reply_bytes (out : response) : bytes * option error :=
  if response.BodyEncoded out then base64.DecodeString (response.Body out)
  else (bytes_of_string (response.Body out), None).

(** A byte that no UTF-8 text holds: C0, C1 and F5 to FF. *)
Definition never_utf8 (b : byte) : bool :=
  ((Byte.to_N b =? 0xC0) || (Byte.to_N b =? 0xC1) || (0xF5 <=? Byte.to_N b))%N.

(** A handler that writes the body of the request back, whatever status and
    headers it replies with. *)
Definition copies_body (h : http_Handler) : Prop :=
  ∀ r, ∃ res, h r = Returns {| httptest.Result := res;
                               httptest.Body_Bytes := http.Request.Body r |}.

(** The URL [u] with [q] as the text after its question mark. *)
Definition with_query (q : string) (u : url.URL) : url.URL :=
  {| url.Scheme := url.Scheme u; url.Opaque := url.Opaque u; url.User := url.User u;
     url.Host := url.Host u; url.Path := url.Path u; url.RawPath := url.RawPath u;
     url.OmitHost := url.OmitHost u; url.ForceQuery := bool_decide (q = "");
     url.RawQuery := q; url.Fragment := url.Fragment u;
     url.RawFragment := url.RawFragment u |}.

(** * Properties *)

(** ** Strings *)

Lemma append_nil_l (s : string) : "" +:+ s = s.
Proof. reflexivity. Qed.

Lemma append_cons c (s t : string) : String c s +:+ t = String c (s +:+ t).
Proof. reflexivity. Qed.

Lemma append_nil_r (s : string) : s +:+ "" = s.
Proof. induction s as [|c s IH]; [done | by rewrite append_cons, IH]. Qed.

Lemma append_assoc (s t u : string) : (s +:+ t) +:+ u = s +:+ t +:+ u.
Proof. induction s as [|c s IH]; [done | by rewrite !append_cons, IH]. Qed.

Lemma length_append (s t : string) :
  String.length (s +:+ t) = (String.length s + String.length t)%nat.
Proof. induction s as [|c s IH]; [done | by rewrite append_cons; simpl; rewrite IH]. Qed.

Lemma has_byte_append c (s t : string) :
  has_byte c (s +:+ t) = has_byte c s || has_byte c t.
Proof.
  induction s as [|d s IH]; [done|]. rewrite append_cons. simpl. rewrite IH.
  by destruct (bool_decide (d = c)).
Qed.

Lemma length_bytes_of_string (s : string) :
  length (bytes_of_string s) = String.length s.
Proof.
  unfold bytes_of_string, list_byte_of_string.
  rewrite length_map. induction s as [|c s IH]; simpl; [done | by rewrite IH].
Qed.

(** ** Loops over a map *)

Section range_loops.
Context {V W : Type} (f : string → V → W).

(** A loop that stores one entry per key of the map it ranges over. *)
Let store (container : gmap string W) (kv : string * V) : gmap string W :=
  <[kv.1 := f kv.1 kv.2]> container.

Lemma store_all_list_to_map (l : list (string * V)) (acc : gmap string W) :
  foldl store acc l =
  list_to_map (reverse ((λ kv, (kv.1, f kv.1 kv.2)) <$> l)) ∪ acc.
Proof.
  revert acc. induction l as [|[k v] l IH]; intros acc; simpl.
  - by rewrite (left_id_L ∅ (∪)).
  - rewrite IH. rewrite reverse_cons, list_to_map_app. simpl.
    rewrite <-(assoc_L (∪)). f_equal. unfold store. simpl.
    rewrite insert_empty. by rewrite <-insert_union_singleton_l.
Qed.

Lemma store_all_lookup (m : gmap string V) (l : list (string * V)) k :
  l ≡ₚ map_to_list m →
  foldl store ∅ l !! k = f k <$> m !! k.
Proof.
  intros Hl. rewrite store_all_list_to_map, (right_id_L ∅ (∪)).
  assert (NoDup l.*1) as Hnd.
  { rewrite Hl. apply NoDup_fst_map_to_list. }
  set (g := λ kv : string * V, (kv.1, f kv.1 kv.2)).
  assert (∀ w, (k, w) ∈ g <$> l ↔ ∃ v, m !! k = Some v ∧ w = f k v) as Hin.
  { intros w. rewrite list_elem_of_fmap. split.
    - intros [[k' v] [Heq Hel]]. unfold g in Heq. simpl in Heq. simplify_eq.
      exists v. split; [|done]. apply elem_of_map_to_list. by rewrite <-Hl.
    - intros (v & Hv & ->). exists (k, v). split; [done|].
      rewrite Hl. by apply elem_of_map_to_list. }
  assert (NoDup (reverse (g <$> l)).*1) as Hnd'.
  { rewrite fmap_reverse, <-list_fmap_compose.
    rewrite reverse_Permutation.
    by assert ((fst ∘ g) <$> l = l.*1) as -> by (by apply list_fmap_ext). }
  destruct (m !! k) as [v|] eqn:Hk; simpl.
  - apply elem_of_list_to_map; [done|]. rewrite elem_of_reverse. apply Hin. eauto.
  - apply not_elem_of_list_to_map. rewrite fmap_reverse, elem_of_reverse.
    rewrite list_elem_of_fmap. intros [[k' w] [-> Hel]]. simpl in Hel.
    apply Hin in Hel as (v & Hv & _). congruence.
Qed.
End range_loops.

Lemma store_all_fmap {V W} (g : V → W) (m : gmap string V) (l : list (string * V)) :
  l ≡ₚ map_to_list m →
  foldl (λ container kv, <[kv.1 := g kv.2]> container) ∅ l = g <$> m.
Proof.
  intros Hl. apply map_eq. intros k.
  rewrite (store_all_lookup (λ _, g) m l k Hl). by rewrite lookup_fmap.
Qed.

(** ** Base64: decoding what was encoded *)

Lemma ascii_of_N_testbit (n : N) :
  ascii_of_N n =
  Ascii (N.testbit n 0) (N.testbit n 1) (N.testbit n 2) (N.testbit n 3)
        (N.testbit n 4) (N.testbit n 5) (N.testbit n 6) (N.testbit n 7).
Proof.
  destruct n as [|p]; [reflexivity|].
  do 8 (destruct p as [p|p|]; try reflexivity).
Qed.

Lemma testbit_byte_high (b : byte) (i : N) :
  (8 ≤ i)%N → N.testbit (Byte.to_N b) i = false.
Proof.
  intros Hi. pose proof (Byte.to_N_bounded b) as Hb.
  destruct (decide (Byte.to_N b = 0%N)) as [->|Hne]; [apply N.bits_0|].
  apply N.bits_above_log2. apply N.log2_lt_pow2; [lia|].
  eapply N.lt_le_trans; [|apply (N.pow_le_mono_r 2 8 i); lia]. simpl. lia.
Qed.

(** [byte(n)] is the byte whose bits are the low eight bits of [n]. *)
Lemma byte_of_N_bits (n : N) (b : byte) :
  (∀ i, (i < 8)%N → N.testbit n i = N.testbit (Byte.to_N b) i) → byte_of_N n = b.
Proof.
  intros Hbits. unfold byte_of_N.
  rewrite <-(byte_of_ascii_of_byte b), ascii_of_byte_via_N. f_equal.
  rewrite !ascii_of_N_testbit. by rewrite !Hbits by lia.
Qed.

Lemma testbit_63 (m : N) : N.testbit 63 m = (m <? 6)%N.
Proof.
  change 63%N with (N.ones 6). destruct (N.ltb_spec m 6).
  - by apply N.ones_spec_low.
  - by apply N.ones_spec_high.
Qed.

Lemma testbit_below_64 (t m : N) : (t < 64)%N → (6 ≤ m)%N → N.testbit t m = false.
Proof.
  intros Ht Hm. destruct (decide (t = 0%N)) as [->|Hne]; [apply N.bits_0|].
  apply N.bits_above_log2. apply N.log2_lt_pow2; [lia|].
  eapply N.lt_le_trans; [|apply (N.pow_le_mono_r 2 6 m); lia]. simpl. lia.
Qed.

Lemma land_63_bound (x : N) : (N.land x 63 < 64)%N.
Proof. change 63%N with (N.ones 6). rewrite N.land_ones. by apply N.mod_lt. Qed.

(** The bits of a sextet of [val]. *)
Lemma testbit_sextet (val k m : N) :
  N.testbit (N.land (N.shiftr val k) 63) m = N.testbit val (m + k) && (m <? 6)%N.
Proof. by rewrite N.land_spec, N.shiftr_spec', testbit_63. Qed.

(** Putting sextets together again gives the bits they were taken from; the
    two low sextets may be missing (zero) for the bits above them. *)
Lemma testbit_recombined (val t2 t3 n : N) :
  (∀ m, (24 ≤ m)%N → N.testbit val m = false) →
  (t2 < 64)%N → (t3 < 64)%N →
  ((n < 12)%N → t2 = N.land (N.shiftr val 6) 63) →
  ((n < 6)%N → t3 = N.land val 63) →
  N.testbit (N.lor (N.lor (N.lor (N.shiftl (N.land (N.shiftr val 18) 63) 18)
                                 (N.shiftl (N.land (N.shiftr val 12) 63) 12))
                          (N.shiftl t2 6)) t3) n
  = N.testbit val n.
Proof.
  intros Hhigh Ht2 Ht3 Hs2 Hs3. rewrite !N.lor_spec.
  destruct (N.lt_ge_cases n 6) as [H6|H6].
  { rewrite !N.shiftl_spec_low by lia. rewrite Hs3 by lia.
    rewrite <-(N.shiftr_0_r val) at 1. rewrite testbit_sextet, N.add_0_r.
    apply N.ltb_lt in H6. by rewrite H6, andb_true_r. }
  rewrite (testbit_below_64 t3 n), orb_false_r by done.
  destruct (N.lt_ge_cases n 12) as [H12|H12].
  { rewrite !(N.shiftl_spec_low _ 18), !(N.shiftl_spec_low _ 12) by lia.
    rewrite N.shiftl_spec_high' by done. rewrite Hs2 by done.
    rewrite testbit_sextet. replace (n - 6 + 6)%N with n by lia.
    assert ((n - 6 <? 6)%N = true) as -> by (apply N.ltb_lt; lia).
    by rewrite andb_true_r. }
  rewrite (N.shiftl_spec_high' t2) by lia.
  rewrite (testbit_below_64 t2) by (done || lia). rewrite orb_false_r.
  destruct (N.lt_ge_cases n 18) as [H18|H18].
  { rewrite (N.shiftl_spec_low _ 18) by lia. rewrite N.shiftl_spec_high' by done.
    rewrite testbit_sextet. replace (n - 12 + 12)%N with n by lia.
    assert ((n - 12 <? 6)%N = true) as -> by (apply N.ltb_lt; lia).
    by rewrite andb_true_r. }
  rewrite !N.shiftl_spec_high' by lia. rewrite !testbit_sextet.
  replace (n - 12 + 12)%N with n by lia. replace (n - 18 + 18)%N with n by lia.
  assert ((n - 12 <? 6)%N = false) as -> by (apply N.ltb_ge; lia).
  rewrite andb_false_r, orb_false_r.
  destruct (N.lt_ge_cases n 24) as [H24|H24].
  - assert ((n - 18 <? 6)%N = true) as -> by (apply N.ltb_lt; lia). by rewrite andb_true_r.
  - by rewrite Hhigh.
Qed.

(** The 24 bits of three bytes, as [Encode] gathers them. *)
Lemma testbit_three_bytes (b0 b1 b2 : byte) (n : N) :
  N.testbit (N.lor (N.lor (N.shiftl (Byte.to_N b0) 16) (N.shiftl (Byte.to_N b1) 8))
                   (Byte.to_N b2)) n =
  if (n <? 8)%N then N.testbit (Byte.to_N b2) n
  else if (n <? 16)%N then N.testbit (Byte.to_N b1) (n - 8)
  else N.testbit (Byte.to_N b0) (n - 16).
Proof.
  rewrite !N.lor_spec.
  destruct (N.ltb_spec n 8) as [H8|H8].
  { by rewrite !N.shiftl_spec_low by lia. }
  rewrite (testbit_byte_high b2), orb_false_r by done.
  destruct (N.ltb_spec n 16) as [H16|H16].
  { rewrite N.shiftl_spec_low by lia. by rewrite N.shiftl_spec_high' by lia. }
  rewrite !N.shiftl_spec_high' by lia.
  by rewrite (testbit_byte_high b1), orb_false_r by lia.
Qed.

Lemma decodeMap_encode (i : N) : (i < 64)%N → base64.decodeMap (base64.encode i) = i.
Proof.
  intros Hi. rewrite <-(N2Nat.id i).
  assert (N.to_nat i < 64)%nat as Hn by lia. revert Hn. generalize (N.to_nat i) as n.
  intros n Hn. do 64 (destruct n as [|n]; [reflexivity|]). lia.
Qed.

Lemma decodeMap_sextet (val shift : N) :
  base64.decodeMap (base64.sextet val shift) = N.land (N.shiftr val shift) 63.
Proof. apply decodeMap_encode, land_63_bound. Qed.

(** One step of [Decode] on a byte of the alphabet. *)
Lemma Decode_alphabet c (src : string) si j dbuf dst :
  (base64.decodeMap c < 64)%N →
  base64.Decode (String c src) si j dbuf dst =
  if decide (j = 3%nat)
  then base64.Decode src (si + 1) 0%nat []
         (dst ++ base64.quantum_bytes (dbuf ++ [base64.decodeMap c]) 4)
  else base64.Decode src (si + 1) (S j) (dbuf ++ [base64.decodeMap c]) dst.
Proof.
  intros Hc. simpl.
  assert ((base64.decodeMap c =? 255)%N = false) as -> by (apply N.eqb_neq; lia).
  done.
Qed.

Lemma Decode_sextet val shift (src : string) si j dbuf dst :
  base64.Decode (String (base64.sextet val shift) src) si j dbuf dst =
  if decide (j = 3%nat)
  then base64.Decode src (si + 1) 0%nat []
         (dst ++ base64.quantum_bytes (dbuf ++ [N.land (N.shiftr val shift) 63]) 4)
  else base64.Decode src (si + 1) (S j) (dbuf ++ [N.land (N.shiftr val shift) 63]) dst.
Proof.
  rewrite Decode_alphabet, decodeMap_sextet; [done|].
  rewrite decodeMap_sextet. apply land_63_bound.
Qed.

(** The bytes of a quantum whose sextets come from three bytes; [t2] and
    [t3] are the sextets read, zero when padding stands for them. *)
Lemma quantum_bytes_three (b0 b1 b2 : byte) (t2 t3 : N) (dlen : nat) :
  let val := N.lor (N.lor (N.shiftl (Byte.to_N b0) 16) (N.shiftl (Byte.to_N b1) 8))
                   (Byte.to_N b2) in
  (t2 < 64)%N → (t3 < 64)%N →
  ((3 ≤ dlen)%nat → t2 = N.land (N.shiftr val 6) 63) →
  ((4 ≤ dlen)%nat → t3 = N.land val 63) →
  base64.quantum_bytes [N.land (N.shiftr val 18) 63; N.land (N.shiftr val 12) 63; t2; t3] dlen
  = take (dlen - 1) [b0; b1; b2].
Proof.
  intros val Ht2 Ht3 Hs2 Hs3. unfold base64.quantum_bytes. cbn [lookup list_lookup default from_option id].
  assert (∀ m, (24 ≤ m)%N → N.testbit val m = false) as Hhigh.
  { intros m Hm. unfold val. rewrite testbit_three_bytes.
    assert ((m <? 8)%N = false) as -> by (apply N.ltb_ge; lia).
    assert ((m <? 16)%N = false) as -> by (apply N.ltb_ge; lia).
    apply testbit_byte_high. lia. }
  destruct dlen as [|[|[|[|dlen]]]]; [done|done|..].
  - cbn [take Nat.sub]. f_equal. apply byte_of_N_bits. intros i Hi.
    rewrite N.shiftr_spec', testbit_recombined by (done || lia).
    unfold val. rewrite testbit_three_bytes.
    assert ((i + 16 <? 8)%N = false) as -> by (apply N.ltb_ge; lia).
    assert ((i + 16 <? 16)%N = false) as -> by (apply N.ltb_ge; lia).
    f_equal. lia.
  - cbn [take Nat.sub]. f_equal; [|f_equal]; apply byte_of_N_bits; intros i Hi.
    + rewrite N.shiftr_spec', testbit_recombined by (done || lia || (intros; apply Hs2; lia)).
      unfold val. rewrite testbit_three_bytes.
      assert ((i + 16 <? 8)%N = false) as -> by (apply N.ltb_ge; lia).
      assert ((i + 16 <? 16)%N = false) as -> by (apply N.ltb_ge; lia).
      f_equal. lia.
    + rewrite N.shiftr_spec', testbit_recombined by (done || lia || (intros; apply Hs2; lia)).
      unfold val. rewrite testbit_three_bytes.
      assert ((i + 8 <? 8)%N = false) as -> by (apply N.ltb_ge; lia).
      assert ((i + 8 <? 16)%N = true) as -> by (apply N.ltb_lt; lia).
      f_equal. lia.
  - replace (S (S (S (S dlen))) - 1)%nat with (S (S (S dlen))) by lia. cbn [take].
    f_equal; [|f_equal; [|f_equal]]; apply byte_of_N_bits; intros i Hi.
    + rewrite N.shiftr_spec', testbit_recombined
        by (done || lia || (intros; apply Hs2; lia) || (intros; apply Hs3; lia)).
      unfold val. rewrite testbit_three_bytes.
      assert ((i + 16 <? 8)%N = false) as -> by (apply N.ltb_ge; lia).
      assert ((i + 16 <? 16)%N = false) as -> by (apply N.ltb_ge; lia).
      f_equal. lia.
    + rewrite N.shiftr_spec', testbit_recombined
        by (done || lia || (intros; apply Hs2; lia) || (intros; apply Hs3; lia)).
      unfold val. rewrite testbit_three_bytes.
      assert ((i + 8 <? 8)%N = false) as -> by (apply N.ltb_ge; lia).
      assert ((i + 8 <? 16)%N = true) as -> by (apply N.ltb_lt; lia).
      f_equal. lia.
    + rewrite testbit_recombined
        by (done || lia || (intros; apply Hs2; lia) || (intros; apply Hs3; lia)).
      unfold val. rewrite testbit_three_bytes.
      by assert ((i <? 8)%N = true) as -> by (apply N.ltb_lt; lia).
Qed.

Lemma list_ind_by_three {A} (P : list A → Prop) :
  P [] → (∀ a, P [a]) → (∀ a b, P [a; b]) →
  (∀ a b c l, P l → P (a :: b :: c :: l)) →
  ∀ l, P l.
Proof.
  intros H0 H1 H2 H3 l.
  assert (P l ∧ (∀ a, P (a :: l)) ∧ (∀ a b, P (a :: b :: l))) as [? _]; [|done].
  induction l as [|c l (IH0 & IH1 & IH2)]; [done|].
  split; [apply IH1|]. split; [intros a; apply IH2|]. intros a b. by apply H3.
Qed.

Lemma Decode_sextet_next val shift (src : string) si j dbuf dst :
  j ≠ 3%nat →
  base64.Decode (String (base64.sextet val shift) src) si j dbuf dst =
  base64.Decode src (si + 1) (S j) (dbuf ++ [N.land (N.shiftr val shift) 63]) dst.
Proof. intros Hj. by rewrite Decode_sextet, decide_False. Qed.

Lemma Decode_sextet_last val shift (src : string) si dbuf dst :
  base64.Decode (String (base64.sextet val shift) src) si 3 dbuf dst =
  base64.Decode src (si + 1) 0%nat []
    (dst ++ base64.quantum_bytes (dbuf ++ [N.land (N.shiftr val shift) 63]) 4).
Proof. by rewrite Decode_sextet, decide_True. Qed.

(** The padding that ends an input, after two and after three sextets. *)
Lemma Decode_padding_two si dbuf dst :
  base64.Decode "==" si 2 dbuf dst = (dst ++ base64.quantum_bytes dbuf 2, None).
Proof. reflexivity. Qed.

Lemma Decode_padding_one si dbuf dst :
  base64.Decode "=" si 3 dbuf dst = (dst ++ base64.quantum_bytes dbuf 3, None).
Proof. reflexivity. Qed.

(** Decoding the encoding of [src] gives [src] back, without error. *)
Lemma Decode_Encode (src : bytes) (si : Z) (dst : bytes) :
  base64.Decode (base64.Encode src) si 0%nat [] dst = (dst ++ src, None).
Proof.
  revert si dst. induction src as [|b0|b0 b1|b0 b1 b2 src IH] using list_ind_by_three;
    intros si dst.
  - simpl. by rewrite app_nil_r.
  - cbn [base64.Encode].
    replace (N.shiftl (Byte.to_N b0) 16)
      with (N.lor (N.lor (N.shiftl (Byte.to_N b0) 16) (N.shiftl (Byte.to_N x00) 8))
                  (Byte.to_N x00))
      by (change (Byte.to_N x00) with 0%N; by rewrite N.shiftl_0_l, !N.lor_0_r).
    rewrite !Decode_sextet_next by done. rewrite Decode_padding_two.
    do 2 f_equal. cbn [app].
    etrans; [|apply (quantum_bytes_three b0 x00 x00 0 0 2); lia]. reflexivity.
  - cbn [base64.Encode].
    replace (N.lor (N.shiftl (Byte.to_N b0) 16) (N.shiftl (Byte.to_N b1) 8))
      with (N.lor (N.lor (N.shiftl (Byte.to_N b0) 16) (N.shiftl (Byte.to_N b1) 8))
                  (Byte.to_N x00))
      by (change (Byte.to_N x00) with 0%N; by rewrite N.lor_0_r).
    set (val := N.lor _ _).
    rewrite !Decode_sextet_next by done. rewrite Decode_padding_one.
    do 2 f_equal. cbn [app].
    etrans; [|apply (quantum_bytes_three b0 b1 x00 (N.land (N.shiftr val 6) 63) 0 3);
               first [apply land_63_bound | done | lia]].
    reflexivity.
  - cbn [base64.Encode]. rewrite !Decode_sextet_next by done.
    rewrite Decode_sextet_last, IH, <-(assoc_L (++)). do 2 f_equal.
    cbn [app].
    rewrite (quantum_bytes_three b0 b1 b2 _ _ 4); try done; apply land_63_bound.
Qed.

Lemma DecodeString_EncodeToString (src : bytes) :
  base64.DecodeString (base64.EncodeToString src) = (src, None).
Proof. apply Decode_Encode. Qed.

(** ** UTF-8 *)

(** A sequence of ASCII bytes is valid UTF-8. *)
Lemma Valid_ascii (p : bytes) :
  Forall (λ b, (Byte.to_N b < 0x80)%N) p → utf8.Valid p = true.
Proof.
  induction 1 as [|b p Hb _ IH]; [done|].
  simpl. apply N.ltb_lt in Hb. by rewrite Hb.
Qed.

(** ** Resolving the single- and multi-value forms *)

Lemma HeadersProvided_multi range req m :
  request.MultiValueHeaders req = Some m → HeadersProvided range req = m.
Proof. unfold HeadersProvided. by intros ->. Qed.

Lemma HeadersProvided_single range req :
  range_ok range →
  request.MultiValueHeaders req = None →
  HeadersProvided range req = (λ v, [v]) <$> entries (request.Headers req).
Proof. unfold HeadersProvided. intros Hrange ->. by apply (store_all_fmap (λ v : string, [v])). Qed.

Lemma QueryProvided_multi range req m :
  request.MultiValueQuery req = Some m → QueryProvided range req = m.
Proof. unfold QueryProvided. by intros ->. Qed.

Lemma QueryProvided_single range req :
  range_ok range →
  request.MultiValueQuery req = None →
  QueryProvided range req = (λ v, [v]) <$> entries (request.Query req).
Proof. unfold QueryProvided. intros Hrange ->. by apply (store_all_fmap (λ v : string, [v])). Qed.

(** C4. The multi-value form of the query parameters and of the headers
    wins by presence: a multi-value map that is not nil, even an empty one,
    is the result whatever the single-value map holds; only when it is nil
    is the single-value map used, each value wrapped as a one-element
    sequence. *)
Theorem multi_value_precedence (range : iteration) (req : request) :
  range_ok range →
  (∀ m, request.MultiValueQuery req = Some m → QueryProvided range req = m) ∧
  (request.MultiValueQuery req = None →
     QueryProvided range req = (λ v, [v]) <$> entries (request.Query req)) ∧
  (∀ m, request.MultiValueHeaders req = Some m → HeadersProvided range req = m) ∧
  (request.MultiValueHeaders req = None →
     HeadersProvided range req = (λ v, [v]) <$> entries (request.Headers req)).
Proof.
  intros Hrange. repeat split.
  - apply QueryProvided_multi.
  - by apply QueryProvided_single.
  - apply HeadersProvided_multi.
  - by apply HeadersProvided_single.
Qed.

(** An event with an empty multi-value query and a single-value query of one
    entry: the empty map is used. With no multi-value headers, the
    single-value header is wrapped. *)
Lemma multi_value_precedence_witness :
  let req := request.mk "GET" "/" (Some {["a" := "1"]}) (Some ∅)
                        (Some {["Host" := "example.com"]}) None "" false in
  QueryProvided in_map_order req = ∅ ∧
  HeadersProvided in_map_order req = {["Host" := ["example.com"]]}.
Proof.
  intros req.
  destruct (multi_value_precedence in_map_order req) as (Hq & _ & _ & Hh).
  { intros V m. reflexivity. }
  split.
  - apply Hq. reflexivity.
  - rewrite Hh by reflexivity. simpl. by rewrite map_fmap_singleton.
Defined.

(** ** The run: request, handler, reply *)

Lemma Run_returns range h ctx req out err :
  Run range h ctx req = Returns (Some out, err) →
  ∃ r recorder,
    Run_request range ctx req = Returns (inr r) ∧ h r = Returns recorder ∧
    out = Run_reply range req recorder ∧ err = None.
Proof.
  unfold Run. destruct (Run_request range ctx req) as [[e|r]|v]; [done| |done].
  destruct (h r) as [recorder|v] eqn:Hh; [|done].
  intros [= <- <-]. by exists r, recorder.
Qed.

Lemma Run_request_inr range ctx req r :
  Run_request range ctx req = Returns (inr r) →
  ∃ u, buildURL range (request.Path req) (QueryProvided range req) = inr u ∧
       http.Request.URL r = u ∧
       if request.BodyEncoded req
       then base64.DecodeString (request.Body req) = (http.Request.Body r, None) ∧
            http.Request.ContentLength r = Z.of_nat (length (http.Request.Body r))
       else http.Request.Body r = bytes_of_string (request.Body req) ∧
            http.Request.ContentLength r = Z.of_nat (String.length (request.Body req)).
Proof.
  unfold Run_request.
  destruct (buildURL _ _ _) as [e|u]; [done|].
  destruct ctx as [ctx|]; [|done].
  destruct (request.BodyEncoded req).
  - destruct (base64.DecodeString _) as [b [e|]]; [done|].
    intros [= <-]. by exists u.
  - intros [= <-]. by exists u.
Qed.

(** C1. Reconstruction keeps the body: when the URL builds, an event whose
    body is not encoded yields a request whose body is the bytes of the body
    string and whose ContentLength is the string's length; an event whose body
    is encoded and decodes to [b] (as the standard base64 encoding of [b]
    does) yields a request whose body is [b] and whose ContentLength is the
    length of [b]. Every request that [Run] builds, under whatever context,
    declares the length of its body, and is the request the handler is
    called with. (A request is built under a context [ctx] that is not nil;
    under a nil one none is.) *)
Theorem request_body_preserved (range : iteration) (ctx : Context) (req : request) :
  (∀ u, buildURL range (request.Path req) (QueryProvided range req) = inr u →
     (request.BodyEncoded req = false →
        ∃ r, Run_request range (Some ctx) req = Returns (inr r) ∧
             http.Request.Body r = bytes_of_string (request.Body req) ∧
             http.Request.ContentLength r = Z.of_nat (String.length (request.Body req))) ∧
     (request.BodyEncoded req = true →
        ∀ b, base64.DecodeString (request.Body req) = (b, None) →
        ∃ r, Run_request range (Some ctx) req = Returns (inr r) ∧
             http.Request.Body r = b ∧
             http.Request.ContentLength r = Z.of_nat (length b)) ∧
     (request.BodyEncoded req = true →
        ∀ b, request.Body req = base64.EncodeToString b →
        ∃ r, Run_request range (Some ctx) req = Returns (inr r) ∧
             http.Request.Body r = b ∧
             http.Request.ContentLength r = Z.of_nat (length b))) ∧
  (∀ c r, Run_request range c req = Returns (inr r) →
     http.Request.ContentLength r = Z.of_nat (length (http.Request.Body r)) ∧
     (∀ h, Run range h c req =
           match h r with
           | Panics v => Panics v
           | Returns recorder => Returns (Some (Run_reply range req recorder), None)
           end)).
Proof.
  split.
  - intros u Hu. unfold Run_request. rewrite Hu. split; [|split].
    + intros ->. eauto.
    + intros -> b ->. eauto.
    + intros -> b ->. rewrite DecodeString_EncodeToString. eauto.
  - intros c r Hr. split.
    + apply Run_request_inr in Hr as (u & _ & _ & Hb).
      destruct (request.BodyEncoded req).
      * by destruct Hb as [_ ->].
      * destruct Hb as [-> ->]. by rewrite length_bytes_of_string.
    + intros h. unfold Run. by rewrite Hr.
Qed.

(** The event of the specification's scenario: the body "aGVsbG8=" flagged
    as encoded reaches the handler as the five bytes of "hello" with
    ContentLength 5; the same string not flagged reaches it as its eight
    bytes. *)
Lemma request_body_preserved_witness :
  let req encoded := request.mk "POST" "/echo" None None None None "aGVsbG8=" encoded in
  (∃ r, Run_request in_map_order (Some Background) (req true) = Returns (inr r) ∧
        http.Request.Body r = bytes_of_string "hello" ∧
        http.Request.ContentLength r = 5) ∧
  (∃ r, Run_request in_map_order (Some Background) (req false) = Returns (inr r) ∧
        http.Request.Body r = bytes_of_string "aGVsbG8=" ∧
        http.Request.ContentLength r = 8).
Proof.
  intros req. split.
  - destruct (request_body_preserved in_map_order Background (req true)) as [H _].
    destruct (H _ eq_refl) as (_ & Henc & _).
    exact (Henc eq_refl (bytes_of_string "hello") eq_refl).
  - destruct (request_body_preserved in_map_order Background (req false)) as [H _].
    destruct (H _ eq_refl) as (Hraw & _).
    exact (Hraw eq_refl).
Defined.

(** C2. The reply's body encoding is decided by [utf8.Valid] on the whole of
    the captured body: valid bytes are emitted as they are with bodyEncoded
    false, other bytes as their standard base64 encoding with bodyEncoded
    true. *)
Theorem reply_body_encoding (range : iteration) (h : http_Handler) (ctx : option Context)
    (req : request) (out : response) (err : option error) :
  Run range h ctx req = Returns (Some out, err) →
  ∃ r recorder,
    Run_request range ctx req = Returns (inr r) ∧ h r = Returns recorder ∧
    (utf8.Valid (httptest.Body_Bytes recorder) = true →
       response.Body out = string_of_bytes (httptest.Body_Bytes recorder) ∧
       response.BodyEncoded out = false) ∧
    (utf8.Valid (httptest.Body_Bytes recorder) = false →
       response.Body out = base64.EncodeToString (httptest.Body_Bytes recorder) ∧
       response.BodyEncoded out = true).
Proof.
  intros (r & recorder & Hr & Hh & -> & _)%Run_returns.
  exists r, recorder. split; [done|]. split; [done|].
  unfold Run_reply.
  destruct (utf8.Valid (httptest.Body_Bytes recorder)); simpl.
  - split; [|done]. intros _. split; [done|].
    unfold SetHeaders. by destruct (request.MultiValueHeaders req).
  - by split.
Qed.

(** A handler that writes the UTF-8 text of the test suite is answered as
    text; the bytes 00 01 02 ff fe are answered in base64. *)
Lemma reply_body_encoding_witness :
  (∃ out, Run in_map_order (replying ∅ (bytes_of_string "Hello, 世界! 🌍")) (Some Background)
              (get "/utf8") = Returns (Some out, None) ∧
          response.Body out = "Hello, 世界! 🌍" ∧ response.BodyEncoded out = false) ∧
  (∃ out, Run in_map_order (replying ∅ [x00; x01; x02; xff; xfe]%byte) (Some Background)
              (get "/binary") = Returns (Some out, None) ∧
          response.Body out = "AAEC//4=" ∧ response.BodyEncoded out = true).
Proof.
  split.
  - eexists. split; [reflexivity|].
    destruct (reply_body_encoding in_map_order
                (replying ∅ (bytes_of_string "Hello, 世界! 🌍")) (Some Background) (get "/utf8")
                _ None eq_refl) as (r & recorder & _ & Hh & Hvalid & _).
    injection Hh as <-. apply Hvalid. reflexivity.
  - eexists. split; [reflexivity|].
    destruct (reply_body_encoding in_map_order
                (replying ∅ [x00; x01; x02; xff; xfe]%byte) (Some Background) (get "/binary")
                _ None eq_refl) as (r & recorder & _ & Hh & _ & Hinvalid).
    injection Hh as <-. apply Hinvalid. reflexivity.
Defined.

(** ** Reply headers *)

Lemma SetHeaders_single range r req res :
  range_ok range →
  request.MultiValueHeaders req = None →
  response.Headers (SetHeaders range r req res) =
    Some ((λ vv, strings.Join vv ",") <$> http.Response.Header res) ∧
  response.MultiValueHeaders (SetHeaders range r req res) = response.MultiValueHeaders r.
Proof.
  intros Hrange Hnil. unfold SetHeaders. rewrite Hnil. simpl. split; [|done].
  f_equal. by apply (store_all_fmap (λ vv : list string, strings.Join vv ",")).
Qed.

Lemma SetHeaders_multi range r req res m :
  request.MultiValueHeaders req = Some m →
  response.MultiValueHeaders (SetHeaders range r req res) = Some (http.Response.Header res) ∧
  response.Headers (SetHeaders range r req res) = response.Headers r.
Proof. intros Hm. unfold SetHeaders. by rewrite Hm. Qed.

Lemma Join_cons_cons (a b : string) (l : list string) (sep : string) :
  strings.Join (a :: b :: l) sep = a +:+ sep +:+ strings.Join (b :: l) sep.
Proof. reflexivity. Qed.

(** C3. The reply's headers mirror the form of the event's: when the
    event's multiHeaders is nil, only the single-value field is set, each
    recorded header being its values joined by commas in their order; when
    it is not nil, only the multi-value field is set, to the recorded header
    map itself. Exactly one of the two fields is set. *)
Theorem reply_headers_mirror (range : iteration) (h : http_Handler) (ctx : option Context)
    (req : request) (out : response) (err : option error) :
  range_ok range →
  Run range h ctx req = Returns (Some out, err) →
  ∃ r recorder,
    Run_request range ctx req = Returns (inr r) ∧ h r = Returns recorder ∧
    (request.MultiValueHeaders req = None →
       response.Headers out =
         Some ((λ vv, strings.Join vv ",") <$>
                 http.Response.Header (httptest.Result recorder)) ∧
       response.MultiValueHeaders out = None) ∧
    (request.MultiValueHeaders req ≠ None →
       response.MultiValueHeaders out =
         Some (http.Response.Header (httptest.Result recorder)) ∧
       response.Headers out = None) ∧
    (is_Some (response.Headers out) ↔ ¬ is_Some (response.MultiValueHeaders out)).
Proof.
  intros Hrange (r & recorder & Hr & Hh & -> & _)%Run_returns.
  exists r, recorder. split; [done|]. split; [done|].
  set (res := httptest.Result recorder).
  set (out0 := response.mk (http.Response.StatusCode res) (http.Response.Status res)
                           None None "" false).
  assert (response.Headers (Run_reply range req recorder) =
            response.Headers (SetHeaders range out0 req res) ∧
          response.MultiValueHeaders (Run_reply range req recorder) =
            response.MultiValueHeaders (SetHeaders range out0 req res)) as [-> ->].
  { unfold Run_reply. fold res out0. by destruct (utf8.Valid _). }
  destruct (request.MultiValueHeaders req) as [m|] eqn:Hm.
  - destruct (SetHeaders_multi range out0 req res m Hm) as [-> ->]. simpl.
    split; [done|]. split; [done|].
    split; [by intros [? [=]] | intros []; eauto].
  - destruct (SetHeaders_single range out0 req res Hrange Hm) as [-> ->]. simpl.
    split; [done|]. split; [done|].
    split; [by intros _ [? [=]] | eauto].
Qed.

(** Two [Add] calls with "first" then "second" on one key are answered as
    "first,second" in the single-value form, and as the recorded pair of
    values in the multi-value form. *)
Lemma reply_headers_mirror_witness :
  let recorded := http.Header_Add (http.Header_Add ∅ "X-Multi" "first") "X-Multi" "second" in
  (∃ out, Run in_map_order (replying recorded []) (Some Background) (get "/multi")
            = Returns (Some out, None) ∧
          response.Headers out = Some {["X-Multi" := "first,second"]} ∧
          response.MultiValueHeaders out = None) ∧
  (∃ out, Run in_map_order (replying recorded []) (Some Background)
              (request.mk "GET" "/multi" None None None (Some ∅) "" false)
            = Returns (Some out, None) ∧
          response.MultiValueHeaders out = Some {["X-Multi" := ["first"; "second"]]} ∧
          response.Headers out = None).
Proof.
  intros recorded. split.
  - eexists. split; [reflexivity|].
    destruct (reply_headers_mirror in_map_order (replying recorded []) (Some Background)
                (get "/multi") _ None (λ V m, reflexivity _) eq_refl)
      as (r & recorder & _ & Hh & Hsingle & _).
    injection Hh as <-. destruct (Hsingle eq_refl) as [-> ->].
    split; [|done]. vm_compute. reflexivity.
  - eexists. split; [reflexivity|].
    destruct (reply_headers_mirror in_map_order (replying recorded []) (Some Background)
                (request.mk "GET" "/multi" None None None (Some ∅) "" false)
                _ None (λ V m, reflexivity _) eq_refl)
      as (r & recorder & _ & Hh & _ & Hmulti & _).
    injection Hh as <-. destruct Hmulti as [-> ->]; [done|].
    split; [|done]. vm_compute. reflexivity.
Defined.

(** ** Errors and panics *)

(** C5 as stated fails. [Run] attaches the context to the request with
    [r.WithContext(ctx)] before it looks at the body, and [net/http] guards
    that call: with a nil context and a URL that builds, the run panics and
    returns no error, also for a body that does not decode. *)
Lemma nil_context_panics_before_decoding :
  (base64.DecodeString "not-valid-base64!!!").2 = Some (CorruptInputError 3) ∧
  Run in_map_order echo None
      (request.mk "POST" "/test" None None None None "not-valid-base64!!!" true)
    = Panics "nil context" ∧
  ¬ ∃ res, Run in_map_order echo None
             (request.mk "POST" "/test" None None None None "not-valid-base64!!!" true)
           = Returns res.
Proof.
  split; [reflexivity|]. split; [reflexivity|].
  intros [res Hres]. vm_compute in Hres. discriminate.
Qed.

(** C5, amended. Under a context that is not nil, an event flagged as
    encoded whose body does not decode ([DecodeString] returns an error: a
    byte outside the alphabet other than CR and LF, or wrong padding) ends
    the run with an error and a nil reply, whatever the handler: the handler
    is not called (a handler that panics when called changes nothing) and no
    request is built, so the undecoded text is never a request body. *)
Theorem undecodable_body_fails (range : iteration) (ctx : Context) (req : request) :
  request.BodyEncoded req = true →
  (base64.DecodeString (request.Body req)).2 ≠ None →
  ∃ err, Run_request range (Some ctx) req = Returns (inl err) ∧
         ∀ h, Run range h (Some ctx) req = Returns (None, Some err).
Proof.
  intros Henc Hbad.
  assert (∃ err, Run_request range (Some ctx) req = Returns (inl err)) as [err Herr].
  { unfold Run_request. destruct (buildURL _ _ _) as [e|u]; [by eauto|].
    rewrite Henc. destruct (base64.DecodeString _) as [b [e|]]; [by eauto | done]. }
  exists err. split; [done|]. intros h. unfold Run. by rewrite Herr.
Qed.

(** The event of the test suite: the body "not-valid-base64!!!" stops the
    decoder at its fourth byte, also under a handler that would panic. *)
Lemma undecodable_body_fails_witness :
  let req := request.mk "POST" "/test" None None None None "not-valid-base64!!!" true in
  Run in_map_order (panicking "called") (Some Background) req =
    Returns (None, Some (CorruptInputError 3)).
Proof.
  intros req.
  destruct (undecodable_body_fails in_map_order Background req eq_refl) as (err & Herr & Hrun).
  { vm_compute. discriminate. }
  rewrite Hrun. injection Herr as <-. reflexivity.
Defined.

(** C9 as stated fails: a handler that panics makes [Run] panic; it returns
    no error. *)
Lemma panic_not_translated :
  Run in_map_order (panicking "boom") (Some Background) (get "/") = Panics "boom" ∧
  ¬ ∃ err, Run in_map_order (panicking "boom") (Some Background) (get "/")
             = Returns (None, Some err).
Proof. split; [reflexivity|]. intros [err Herr]. vm_compute in Herr. discriminate. Qed.

(** C9, amended. Nothing recovers a panic of the handler: when the handler
    panics on the request built from the event, [Run] panics with the same
    value and returns neither a reply nor an error. *)
Theorem handler_panic_propagates (range : iteration) (h : http_Handler) (ctx : option Context)
    (req : request) (r : http.Request.t) (v : string) :
  Run_request range ctx req = Returns (inr r) →
  h r = Panics v →
  Run range h ctx req = Panics v ∧ ∀ res, Run range h ctx req ≠ Returns res.
Proof. intros Hr Hh. unfold Run. rewrite Hr, Hh. by split. Qed.

Lemma handler_panic_propagates_witness :
  Run in_map_order (panicking "boom") (Some Background) (get "/") = Panics "boom".
Proof.
  eapply proj1, (handler_panic_propagates in_map_order (panicking "boom")
                   (Some Background) (get "/")).
  - reflexivity.
  - reflexivity.
Defined.

(** ** The string built by [buildURL] *)

Lemma query_pairs_cons k vs (kvs : list (string * list string)) :
  query_pairs ((k, vs) :: kvs) = ((λ vv, (k, vv)) <$> vs) ++ query_pairs kvs.
Proof. reflexivity. Qed.

(** The two nested loops write the pairs one after the other. *)
Lemma buildURL_loops_flat (kvs : list (string * list string)) (bi : string * Z) :
  foldl (λ bi kv, foldl (buildURL_pair kv.1) bi kv.2) bi kvs =
  foldl (λ bi p, buildURL_pair p.1 bi p.2) bi (query_pairs kvs).
Proof.
  revert bi. induction kvs as [|[k vs] kvs IH]; intros bi; [done|].
  rewrite query_pairs_cons, foldl_app. simpl. rewrite IH. f_equal.
  clear IH. revert bi. induction vs as [|v vs IHvs]; intros bi; [done|].
  simpl. by rewrite IHvs.
Qed.

Lemma Join_foldr (e : string) (elems : list string) (sep : string) :
  strings.Join (e :: elems) sep = e +:+ foldr (λ x acc, sep +:+ x +:+ acc) "" elems.
Proof.
  revert e. induction elems as [|x elems IH]; intros e.
  - simpl. by rewrite append_nil_r.
  - by rewrite Join_cons_cons, IH.
Qed.

(** After the first pair, every pair is written behind an ampersand. *)
Lemma buildURL_pairs_later (ps : list (string * string)) (b : string) (i : Z) :
  0 < i →
  foldl (λ bi p, buildURL_pair p.1 bi p.2) (b, i) ps =
  (b +:+ foldr (λ x acc, "&" +:+ x +:+ acc) "" (pair_string <$> ps),
   i + Z.of_nat (length ps)).
Proof.
  revert b i. induction ps as [|[k v] ps IH]; intros b i Hi.
  - simpl. rewrite append_nil_r. f_equal. lia.
  - simpl. rewrite bool_decide_true by lia. rewrite IH by lia.
    f_equal; [|lia]. unfold pair_string. simpl. by rewrite !append_assoc.
Qed.

Lemma buildURL_pairs (ps : list (string * string)) (b : string) :
  foldl (λ bi p, buildURL_pair p.1 bi p.2) (b, 0) ps =
  (b +:+ strings.Join (pair_string <$> ps) "&", Z.of_nat (length ps)).
Proof.
  destruct ps as [|[k v] ps].
  - simpl. by rewrite append_nil_r.
  - cbn [foldl buildURL_pair fst snd]. rewrite bool_decide_false by lia.
    rewrite buildURL_pairs_later by lia.
    rewrite fmap_cons, Join_foldr. f_equal; [|simpl; lia].
    unfold pair_string. simpl. by rewrite !append_assoc.
Qed.

Lemma buildURL_string_spec range path query :
  buildURL_string range path query =
  path +:+ "?" +:+ strings.Join (pair_string <$> query_pairs (range _ query)) "&".
Proof.
  unfold buildURL_string. rewrite buildURL_loops_flat, buildURL_pairs. simpl.
  by rewrite append_nil_l, append_assoc.
Qed.

Lemma range_nil (range : iteration) {V} (m : gmap string V) :
  range_ok range → range V m = [] ↔ m = ∅.
Proof.
  intros Hrange. rewrite <-map_to_list_empty_iff. specialize (Hrange V m). split.
  - intros Hnil. rewrite Hnil in Hrange. by apply Permutation_nil_l in Hrange.
  - intros Hnil. rewrite Hnil in Hrange. by apply Permutation_nil_r in Hrange.
Qed.

Lemma range_NoDup (range : iteration) {V} (m : gmap string V) :
  range_ok range → NoDup (range V m).*1.
Proof. intros Hrange. rewrite (Hrange V m). apply NoDup_fst_map_to_list. Qed.

Lemma range_lookup (range : iteration) {V} (m : gmap string V) k v :
  range_ok range → (k, v) ∈ range V m ↔ m !! k = Some v.
Proof. intros Hrange. rewrite (Hrange V m). apply elem_of_map_to_list. Qed.

Lemma query_pairs_filter_absent (kvs : list (string * list string)) k :
  k ∉ kvs.*1 → filter (λ p, p.1 = k) (query_pairs kvs) = [].
Proof.
  induction kvs as [|[k0 vs] kvs IH]; [done|].
  rewrite fmap_cons. intros [Hne Hk]%not_elem_of_cons. simpl in Hne.
  rewrite query_pairs_cons, filter_app, IH, app_nil_r by done.
  clear IH. induction vs as [|v vs IHvs]; [done|].
  rewrite fmap_cons, filter_cons_False; [done | simpl; congruence].
Qed.

Lemma query_pairs_filter (kvs : list (string * list string)) k vs :
  NoDup kvs.*1 → (k, vs) ∈ kvs →
  filter (λ p, p.1 = k) (query_pairs kvs) = (λ vv, (k, vv)) <$> vs.
Proof.
  induction kvs as [|[k0 vs0] kvs IH]; [by intros _ ?%elem_of_nil|].
  rewrite fmap_cons. intros [Hk0 Hnd]%NoDup_cons Hel%elem_of_cons. simpl in Hk0.
  rewrite query_pairs_cons, filter_app.
  destruct (decide (k0 = k)) as [->|Hne].
  - assert (vs0 = vs) as ->.
    { destruct Hel as [[= ->]|Hel]; [done|].
      destruct Hk0. apply list_elem_of_fmap. by exists (k, vs). }
    rewrite query_pairs_filter_absent, app_nil_r by done.
    clear. induction vs as [|v vs IHvs]; [done|].
    rewrite fmap_cons, filter_cons_True by done. by rewrite IHvs.
  - destruct Hel as [[= -> ->]|Hel]; [done|].
    rewrite IH by done.
    assert (filter (λ p : string * string, p.1 = k) ((λ vv, (k0, vv)) <$> vs0) = []) as ->; [|done].
    clear -Hne. induction vs0 as [|v vs0 IHvs]; [done|].
    rewrite fmap_cons, filter_cons_False; [done | simpl; congruence].
Qed.

Lemma buildURL_empty range path : buildURL range path ∅ = url.Parse path.
Proof. unfold buildURL. by rewrite map_size_empty. Qed.

Lemma buildURL_nonempty range path (query : gmap string (list string)) :
  query ≠ ∅ →
  buildURL range path query =
    url.Parse (path +:+ "?" +:+
               strings.Join (pair_string <$> query_pairs (range _ query)) "&").
Proof.
  intros Hne. unfold buildURL. rewrite bool_decide_false.
  - by rewrite buildURL_string_spec.
  - by rewrite map_size_empty_iff.
Qed.

(** The pairs written for a key are its values, in their order. *)
Lemma query_pairs_of_key range (query : gmap string (list string)) k :
  range_ok range →
  filter (λ p, p.1 = k) (query_pairs (range _ query)) =
  (λ vv, (k, vv)) <$> default [] (query !! k).
Proof.
  intros Hrange. destruct (query !! k) as [vs|] eqn:Hk; simpl.
  - apply query_pairs_filter; [by apply range_NoDup | by apply range_lookup].
  - apply query_pairs_filter_absent. rewrite list_elem_of_fmap.
    intros [[k' vs] [-> Hel]]. apply range_lookup in Hel; [|done]. simpl in Hk. congruence.
Qed.

(** C7. [buildURL] is the algorithm of the specification: it parses the
    path alone for an empty query mapping, and otherwise the path, a question
    mark and the key=value pairs joined by ampersands; the pairs of a key are
    its values in their order, one pair each, whatever the order of the keys;
    the outcome, error or URL, is the parser's outcome on that string. *)
Theorem buildURL_follows_spec (range : iteration) (path : string)
    (query : gmap string (list string)) :
  range_ok range →
  buildURL range path query = buildURL_spec path (range _ query) ∧
  (query = ∅ → buildURL range path query = url.Parse path) ∧
  (query ≠ ∅ →
     buildURL range path query =
       url.Parse (path +:+ "?" +:+
                  strings.Join (pair_string <$> query_pairs (range _ query)) "&")) ∧
  (∀ k, filter (λ p, p.1 = k) (query_pairs (range _ query)) =
        (λ vv, (k, vv)) <$> default [] (query !! k)).
Proof.
  intros Hrange. split; [|split; [|split]].
  - unfold buildURL_spec. destruct (range _ query) as [|kv kvs] eqn:Hkvs.
    + apply (range_nil range) in Hkvs as ->; [|done]. apply buildURL_empty.
    + rewrite <-Hkvs. apply buildURL_nonempty.
      intros Hq%(range_nil range); [|done]. congruence.
  - intros ->. apply buildURL_empty.
  - apply buildURL_nonempty.
  - intros k. by apply query_pairs_of_key.
Qed.

Lemma buildURL_follows_spec_witness :
  let query : gmap string (list string) := {["a" := ["1"; "2"]]} in
  buildURL in_map_order "/p" query = url.Parse "/p?a=1&a=2" ∧
  filter (λ p, p.1 = "a") (query_pairs (in_map_order _ query)) = [("a", "1"); ("a", "2")].
Proof.
  intros query.
  destruct (buildURL_follows_spec in_map_order "/p" query) as (Hspec & _ & _ & Hvals).
  { intros V m. reflexivity. }
  split.
  - rewrite Hspec. reflexivity.
  - rewrite Hvals. reflexivity.
Defined.

(** ** Cutting a string at a byte *)

Lemma has_byte_cons c d (s : string) :
  has_byte c (String d s) = bool_decide (d = c) || has_byte c s.
Proof. reflexivity. Qed.

Lemma HasPrefix_byte c d (s : string) :
  strings.HasPrefix (String d s) (String c "") = bool_decide (c = d).
Proof.
  simpl. case_decide; case_bool_decide; try done. by destruct s.
Qed.

Lemma Index_cons c d (s : string) :
  strings.Index (String d s) (String c "") =
  if bool_decide (c = d) then Some 0%nat else S <$> strings.Index s (String c "").
Proof.
  change (strings.Index (String d s) (String c "")) with
    (if strings.HasPrefix (String d s) (String c "") then Some 0%nat
     else S <$> strings.Index s (String c "")).
  by rewrite HasPrefix_byte.
Qed.

Lemma Index_byte_absent c (s : string) :
  has_byte c s = false → strings.Index s (String c "") = None.
Proof.
  induction s as [|d s IH]; [done|].
  rewrite has_byte_cons, Index_cons. intros [Hd Hs]%orb_false_elim.
  apply bool_decide_eq_false in Hd.
  rewrite bool_decide_false by congruence. by rewrite IH.
Qed.

Lemma Index_byte_found c (a b : string) :
  has_byte c a = false →
  strings.Index (a +:+ String c b) (String c "") = Some (String.length a).
Proof.
  induction a as [|d a IH].
  - intros _. rewrite append_nil_l, Index_cons. by rewrite bool_decide_true.
  - rewrite has_byte_cons, append_cons, Index_cons. intros [Hd Hs]%orb_false_elim.
    apply bool_decide_eq_false in Hd.
    rewrite bool_decide_false by congruence. by rewrite IH.
Qed.

Lemma slice_to_append (a b : string) : strings.slice_to (String.length a) (a +:+ b) = a.
Proof.
  induction a as [|d a IH]; [by destruct b|].
  rewrite append_cons. simpl. by rewrite IH.
Qed.

Lemma slice_from_append (a b : string) (n : nat) :
  strings.slice_from (String.length a + n) (a +:+ b) = strings.slice_from n b.
Proof. induction a as [|d a IH]; [done|]. by rewrite append_cons. Qed.

Lemma Cut_byte_absent c (s : string) :
  has_byte c s = false → strings.Cut s (String c "") = (s, "", false).
Proof. intros Hs. unfold strings.Cut. by rewrite Index_byte_absent. Qed.

Lemma Cut_byte_found c (a b : string) :
  has_byte c a = false → strings.Cut (a +:+ String c b) (String c "") = (a, b, true).
Proof.
  intros Ha. unfold strings.Cut. rewrite Index_byte_found by done.
  by rewrite slice_to_append, slice_from_append.
Qed.

Lemma Contains_byte c (s : string) : strings.Contains s (String c "") = has_byte c s.
Proof.
  unfold strings.Contains. induction s as [|d s IH]; [done|].
  rewrite Index_cons, has_byte_cons. rewrite <-IH.
  destruct (decide (c = d)) as [->|Hne].
  - by rewrite !(bool_decide_true (d = d)) by done.
  - rewrite (bool_decide_false (c = d)), (bool_decide_false (d = c)) by congruence.
    simpl. apply bool_decide_ext. by rewrite fmap_is_Some.
Qed.

Lemma CountByte_append c (a b : string) :
  strings.CountByte (a +:+ b) c = (strings.CountByte a c + strings.CountByte b c)%nat.
Proof.
  induction a as [|d a IH]; [done|]. rewrite append_cons. simpl. rewrite IH. lia.
Qed.

Lemma CountByte_absent c (s : string) :
  strings.CountByte s c = 0%nat ↔ has_byte c s = false.
Proof.
  induction s as [|d s IH]; [done|]. simpl. case_decide as Hd.
  - rewrite bool_decide_true by done. simpl. split; [lia | done].
  - by rewrite bool_decide_false by done.
Qed.

Lemma slice_from_counts c t (s : string) (n : nat) :
  strings.slice_from n s = String c t → (1 ≤ strings.CountByte s c)%nat.
Proof.
  revert n. induction s as [|d s IH]; intros n.
  - by destruct n.
  - destruct n as [|n]; simpl.
    + intros [= -> ->]. rewrite decide_True by done. lia.
    + intros Hs%IH. lia.
Qed.

(** ** What [url.Parse] keeps of the query *)

(** [getScheme] leaves the query behind its question mark. *)
Lemma getScheme_loop_query (raw p q : string) (i : nat) scheme rest :
  has_byte "?" p = false →
  url.getScheme_loop raw (p +:+ "?" +:+ q) i = inr (scheme, rest) →
  rest = raw ∨ ∃ p', has_byte "?" p' = false ∧ rest = p' +:+ "?" +:+ q.
Proof.
  revert i. induction p as [|c p IH]. 
  - intros i _. rewrite append_nil_l. vm_compute. intros [= <- <-]. by left.
  - intros i. rewrite has_byte_cons, append_cons. intros [Hc Hp]%orb_false_elim.
    simpl. repeat case_match; intros Hloop; simplify_eq; eauto.
Qed.

Lemma cut_query_spec (p q : string) :
  has_byte "?" p = false →
  ∃ forceQuery, url.cut_query (p +:+ "?" +:+ q) = (p, forceQuery, q).
Proof.
  intros Hp. unfold url.cut_query.
  rewrite append_cons, append_nil_l.
  destruct (strings.HasSuffix _ _ && _) eqn:Hlone.
  - exists true. apply andb_true_iff in Hlone as [Hsuffix Hcount].
    apply bool_decide_eq_true in Hcount.
    rewrite CountByte_append in Hcount. simpl in Hcount.
    apply CountByte_absent in Hp. rewrite Hp in Hcount.
    unfold strings.HasSuffix in Hsuffix.
    apply andb_true_iff in Hsuffix as [_ Hlast%bool_decide_eq_true].
    rewrite length_append in Hlast. simpl in Hlast.
    replace (String.length p + S (String.length q) - 1)%nat
      with (String.length p + String.length q)%nat in * by lia.
    rewrite slice_from_append in Hlast.
    destruct q as [|c q].
    + rewrite length_append. simpl.
      replace (String.length p + 1 - 1)%nat with (String.length p) by lia.
      by rewrite slice_to_append.
    + simpl in Hlast. apply slice_from_counts in Hlast. simpl in *. lia.
  - exists false. by rewrite Cut_byte_found.
Qed.

Lemma parse_RawQuery (path q : string) (u : url.URL) :
  has_byte "?" path = false →
  url.parse (path +:+ "?" +:+ q) = inr u →
  url.RawQuery u = q.
Proof.
  intros Hpath. unfold url.parse.
  destruct (url.stringContainsCTLByte _); [done|].
  case_bool_decide as Hstar.
  { assert (has_byte "?" (path +:+ "?" +:+ q) = has_byte "?" "*") as Hbad by by rewrite Hstar.
    rewrite has_byte_append, has_byte_append, orb_true_r in Hbad. done. }
  destruct (url.getScheme _) as [e|[scheme rest]] eqn:Hscheme; [done|].
  assert (∃ p', has_byte "?" p' = false ∧ rest = p' +:+ "?" +:+ q) as (p' & Hp' & ->).
  { apply getScheme_loop_query in Hscheme as [->|?]; eauto. }
  destruct (cut_query_spec p' q Hp') as [forceQuery ->].
  repeat case_match; intros Hu; simplify_eq; done.
Qed.

Lemma Parse_RawQuery (path q : string) (u : url.URL) :
  has_byte "?" path = false → has_byte "#" path = false → has_byte "#" q = false →
  url.Parse (path +:+ "?" +:+ q) = inr u →
  url.RawQuery u = q.
Proof.
  intros Hpath Hhash Hq. unfold url.Parse.
  rewrite Cut_byte_absent.
  - destruct (url.parse _) as [e|url] eqn:Hparse; [done|].
    rewrite bool_decide_true by done. intros [= <-]. by eapply parse_RawQuery.
  - by rewrite !has_byte_append, Hhash, Hq.
Qed.

(** With no question mark in [rest], nothing is cut. *)
Lemma cut_query_none (rest : string) :
  has_byte "?" rest = false → url.cut_query rest = (rest, false, "").
Proof.
  intros Hrest. unfold url.cut_query.
  rewrite (proj2 (CountByte_absent "?" rest) Hrest).
  rewrite (bool_decide_false (0 = 1)%nat), andb_false_r by done.
  by rewrite Cut_byte_absent.
Qed.

Lemma getScheme_loop_no_byte c (raw p : string) (i : nat) scheme rest :
  has_byte c raw = false → has_byte c p = false →
  url.getScheme_loop raw p i = inr (scheme, rest) → has_byte c rest = false.
Proof.
  intros Hraw. revert i. induction p as [|d p IH]; intros i.
  - intros _ [= _ <-]. done.
  - rewrite has_byte_cons. intros [_ Hp]%orb_false_elim. simpl.
    repeat case_match; intros Hloop; simplify_eq; eauto.
Qed.

(** The URL parsed from a string without question mark has no query. *)
Lemma parse_no_query (p : string) (u : url.URL) :
  has_byte "?" p = false → url.parse p = inr u →
  url.ForceQuery u = false ∧ url.RawQuery u = "".
Proof.
  intros Hp. unfold url.parse.
  destruct (url.stringContainsCTLByte _); [done|].
  case_bool_decide; [by intros [= <-]|].
  destruct (url.getScheme _) as [e|[scheme rest]] eqn:Hscheme; [done|].
  assert (has_byte "?" rest = false) as Hrest.
  { by eapply getScheme_loop_no_byte in Hscheme. }
  rewrite cut_query_none by done.
  repeat case_match; intros Hu; simplify_eq; done.
Qed.

Lemma has_byte_split c (s : string) :
  has_byte c s = true → ∃ a b, s = a +:+ String c b ∧ has_byte c a = false.
Proof.
  induction s as [|d s IH]; [done|]. rewrite has_byte_cons.
  destruct (decide (d = c)) as [->|Hne].
  - intros _. exists "", s. by rewrite append_nil_l.
  - rewrite bool_decide_false by done. simpl. intros (a & b & -> & Ha)%IH.
    exists (String d a), b. rewrite append_cons. split; [done|].
    by rewrite has_byte_cons, bool_decide_false by done.
Qed.

(** A question mark behind a path without one leaves the query empty,
    whether the path holds a number sign or not. *)
Lemma Parse_lone_question (path : string) (u : url.URL) :
  has_byte "?" path = false → url.Parse (path +:+ "?") = inr u → url.RawQuery u = "".
Proof.
  intros Hpath. destruct (has_byte "#" path) eqn:Hhash.
  - apply has_byte_split in Hhash as (a & b & -> & Ha).
    rewrite has_byte_append in Hpath. apply orb_false_elim in Hpath as [Hqa _].
    unfold url.Parse. rewrite append_assoc, append_cons, Cut_byte_found by done.
    destruct (url.parse a) as [e|u0] eqn:Hparse; [done|].
    apply parse_no_query in Hparse as [_ Hraw]; [|done].
    case_bool_decide; [by intros [= <-]|].
    destruct (url.setFragment _) as [e|[f rf]]; [done|]. by intros [= <-].
  - by apply (Parse_RawQuery path "").
Qed.

(** ** Percent-escaped strings *)

Lemma unescape_check_cons c (s : string) mode :
  c ≠ "%"%char → mode ≠ url.encodeHost → mode ≠ url.encodeZone →
  url.unescape_check (String c s) mode = url.unescape_check s mode.
Proof.
  intros Hc Hhost Hzone.
  assert (bool_decide (mode = url.encodeHost ∨ mode = url.encodeZone) = false) as Hmode.
  { apply bool_decide_eq_false. by intros [|]. }
  destruct c as [[] [] [] [] [] [] [] []]; try done; simpl; by rewrite Hmode.
Qed.

Lemma unescape_build_cons c (s : string) mode :
  c ≠ "%"%char → c ≠ "+"%char →
  url.unescape_build (String c s) mode = String c (url.unescape_build s mode).
Proof. intros Hc Hplus. by destruct c as [[] [] [] [] [] [] [] []]. Qed.

Lemma percent_escaped_cons c (s : string) :
  c ≠ "%"%char →
  percent_escaped (String c s) =
  (bool_decide (c = "+"%char) || negb (url.shouldEscape c url.encodeQueryComponent))
  && percent_escaped s.
Proof. intros Hc. by destruct c as [[] [] [] [] [] [] [] []]. Qed.

(** Induction along the structure of a percent-escaped string. *)
Lemma percent_escaped_ind (P : string → Prop) :
  P "" →
  (∀ h1 h2 s, url.ishex h1 = true → url.ishex h2 = true →
     percent_escaped s = true → P s → P (String "%" (String h1 (String h2 s)))) →
  (∀ c s, c ≠ "%"%char →
     c = "+"%char ∨ url.shouldEscape c url.encodeQueryComponent = false →
     percent_escaped s = true → P s → P (String c s)) →
  ∀ s, percent_escaped s = true → P s.
Proof.
  intros Hnil Htriple Hbyte s.
  remember (String.length s) as n eqn:Hn. revert s Hn.
  induction (lt_wf n) as [n _ IH]. intros s -> Hs.
  destruct s as [|c s]; [done|].
  destruct (decide (c = "%"%char)) as [->|Hc].
  - destruct s as [|h1 [|h2 s]]; try done. simpl in Hs.
    apply andb_true_iff in Hs as [[H1 H2]%andb_true_iff Hs].
    apply Htriple; try done. eapply IH; [|done..]. simpl. lia.
  - rewrite percent_escaped_cons in Hs by done.
    apply andb_true_iff in Hs as [Hcs Hs].
    apply Hbyte; try done.
    + apply orb_true_iff in Hcs as [?%bool_decide_eq_true|?%negb_true_iff]; eauto.
    + eapply IH; [|done..]. simpl. lia.
Qed.

Lemma percent_escaped_unescape_check (s : string) :
  percent_escaped s = true → url.unescape_check s url.encodeQueryComponent = None.
Proof.
  revert s. apply percent_escaped_ind; [done|..].
  - intros h1 h2 s H1 H2 _ IH. simpl. by rewrite H1, H2.
  - intros c s Hc _ _ IH. by rewrite unescape_check_cons.
Qed.

(** A byte that has to be escaped does not occur in an escaped string. *)
Lemma percent_escaped_has_byte c (s : string) :
  c ≠ "%"%char → c ≠ "+"%char → url.ishex c = false →
  url.shouldEscape c url.encodeQueryComponent = true →
  percent_escaped s = true → has_byte c s = false.
Proof.
  intros Hpercent Hplus Hhex Hescape. revert s. apply percent_escaped_ind; [done|..].
  - intros h1 h2 s H1 H2 _ IH. rewrite !has_byte_cons, IH.
    rewrite !bool_decide_false; [done|congruence..].
  - intros d s Hd Hkind _ IH. rewrite has_byte_cons, IH.
    rewrite bool_decide_false; [done|]. destruct Hkind; congruence.
Qed.

Lemma QueryUnescape_escaped (s : string) :
  percent_escaped s = true → url.QueryUnescape s = inr (decoded s).
Proof.
  intros Hs. unfold url.QueryUnescape, url.unescape.
  by rewrite percent_escaped_unescape_check.
Qed.

(** ** Reading the query back *)

Lemma escaped_no_amp s : percent_escaped s = true → has_byte "&" s = false.
Proof. by apply percent_escaped_has_byte. Qed.

Lemma escaped_no_semicolon s : percent_escaped s = true → has_byte ";" s = false.
Proof. by apply percent_escaped_has_byte. Qed.

Lemma escaped_no_equals s : percent_escaped s = true → has_byte "=" s = false.
Proof. by apply percent_escaped_has_byte. Qed.

Lemma escaped_no_hash s : percent_escaped s = true → has_byte "#" s = false.
Proof. by apply percent_escaped_has_byte. Qed.

Lemma pair_string_no_byte c (p : string * string) :
  c ≠ "="%char → has_byte c p.1 = false → has_byte c p.2 = false →
  has_byte c (pair_string p) = false.
Proof.
  intros Hc H1 H2. unfold pair_string.
  rewrite !has_byte_append, H1, H2. simpl. by rewrite bool_decide_false by done.
Qed.

Lemma Cut_byte_between c (a b : string) :
  has_byte c a = false →
  strings.Cut (a +:+ String c "" +:+ b) (String c "") = (a, b, true).
Proof. apply Cut_byte_found. Qed.

Lemma parseQuery_done fuel m err : url.parseQuery fuel m "" err = (m, err).
Proof. by destruct fuel. Qed.

(** One turn of the loop of [parseQuery] on a pair of escaped strings. *)
Lemma parseQuery_pair fuel m (p : string * string) (query query' : string) found err :
  percent_escaped p.1 = true → percent_escaped p.2 = true →
  strings.Cut query "&" = (pair_string p, query', found) →
  url.parseQuery (S fuel) m query err =
  url.parseQuery fuel (url.Values_append m (decoded p.1) (decoded p.2)) query' err.
Proof.
  intros Hk Hv Hcut. destruct p as [k v]. simpl in Hk, Hv.
  assert (query ≠ "") as Hquery.
  { intros ->. by destruct k. }
  simpl. rewrite bool_decide_false by done. rewrite Hcut.
  rewrite Contains_byte, pair_string_no_byte by (done || by apply escaped_no_semicolon).
  rewrite bool_decide_false by by destruct k.
  unfold pair_string. simpl.
  rewrite Cut_byte_between by by apply escaped_no_equals.
  by rewrite !QueryUnescape_escaped.
Qed.

Lemma length_pair_string (p : string * string) :
  String.length (pair_string p) = (String.length p.1 + 1 + String.length p.2)%nat.
Proof. unfold pair_string. rewrite !length_append. simpl. lia. Qed.

Lemma parseQuery_pairs (ps : list (string * string)) fuel m err :
  Forall (λ p, percent_escaped p.1 = true ∧ percent_escaped p.2 = true) ps →
  (String.length (strings.Join (pair_string <$> ps) "&") ≤ fuel)%nat →
  url.parseQuery fuel m (strings.Join (pair_string <$> ps) "&") err =
  (foldl (λ m p, url.Values_append m (decoded p.1) (decoded p.2)) m ps, err).
Proof.
  revert fuel m. induction ps as [|p ps IH]; intros fuel m Hps Hfuel.
  - apply parseQuery_done.
  - apply Forall_cons in Hps as [[Hk Hv] Hps].
    assert (has_byte "&" (pair_string p) = false) as Hamp.
    { by apply pair_string_no_byte; [|apply escaped_no_amp..]. }
    pose proof (length_pair_string p) as Hlen.
    destruct ps as [|p' ps].
    + simpl in *. destruct fuel as [|fuel]; [lia|].
      erewrite parseQuery_pair; [apply parseQuery_done|done..|].
      by apply Cut_byte_absent.
    + rewrite fmap_cons, fmap_cons, Join_cons_cons in *. rewrite <-fmap_cons in *.
      rewrite !length_append in Hfuel. change (String.length "&") with 1%nat in Hfuel.
      destruct fuel as [|fuel]; [lia|].
      erewrite parseQuery_pair; [|done..|by apply Cut_byte_between].
      rewrite IH; [done..|]. lia.
Qed.

(** What a key holds once all pairs are appended. *)
Lemma append_all_lookup {A} (f g : A → string) (ps : list A) (m : url.Values) key :
  foldl (λ m p, url.Values_append m (f p) (g p)) m ps !! key =
  match g <$> filter (λ p, f p = key) ps with
  | [] => m !! key
  | vs => Some (default [] (m !! key) ++ vs)
  end.
Proof.
  revert m. induction ps as [|p ps IH]; intros m; [done|].
  simpl. rewrite IH. unfold url.Values_append.
  destruct (decide (f p = key)) as [<-|Hne].
  - rewrite filter_cons_True by done. rewrite lookup_insert_eq, fmap_cons.
    destruct (g <$> filter _ ps); simpl; [done|]. by rewrite <-(assoc_L (++)).
  - rewrite filter_cons_False by done. by rewrite lookup_insert_ne.
Qed.

Lemma filter_ext_elem {A} (P1 P2 : A → Prop) `{!∀ x, Decision (P1 x)}
    `{!∀ x, Decision (P2 x)} (l : list A) :
  (∀ x, x ∈ l → P1 x ↔ P2 x) → filter P1 l = filter P2 l.
Proof.
  induction l as [|x l IH]; intros Hext; [done|].
  rewrite !filter_cons, IH by (intros y Hy; apply Hext; by right).
  pose proof (Hext x (list_elem_of_here x l)) as Hx.
  destruct (decide (P1 x)), (decide (P2 x)); tauto.
Qed.

Lemma Join_no_byte c (l : list string) (sep : string) :
  Forall (λ s, has_byte c s = false) l → has_byte c sep = false →
  has_byte c (strings.Join l sep) = false.
Proof.
  intros Hl Hsep. induction Hl as [|s l Hs Hl IH]; [done|].
  destruct l as [|s' l]; [done|].
  by rewrite Join_cons_cons, !has_byte_append, Hs, Hsep, IH.
Qed.

Lemma elem_of_query_pairs (kvs : list (string * list string)) k v :
  (k, v) ∈ query_pairs kvs ↔ ∃ vs, (k, vs) ∈ kvs ∧ v ∈ vs.
Proof.
  unfold query_pairs. rewrite list_elem_of_bind. split.
  - intros [[k' vs] [Hel Hkvs]]. apply list_elem_of_fmap in Hel as [v' [[= -> ->] Hv]].
    eauto.
  - intros [vs [Hkvs Hv]]. exists (k, vs). split; [|done].
    apply list_elem_of_fmap. eauto.
Qed.

(** What [u.Query()] holds when the URL was parsed from a path and the pairs
    of an escaped query. *)
Lemma Query_of_pairs (path : string) (ps : list (string * string)) (u : url.URL) name :
  has_byte "?" path = false → has_byte "#" path = false →
  Forall (λ p, percent_escaped p.1 = true ∧ percent_escaped p.2 = true) ps →
  url.Parse (path +:+ "?" +:+ strings.Join (pair_string <$> ps) "&") = inr u →
  url.Query u !! name =
  match (λ p, decoded p.2) <$> filter (λ p, decoded p.1 = name) ps with
  | [] => None
  | vs => Some vs
  end.
Proof.
  intros Hpath Hhash Hps Hu.
  apply Parse_RawQuery in Hu; [|done..|].
  - unfold url.Query, url.ParseQuery. rewrite Hu, parseQuery_pairs by done. simpl.
    by rewrite (append_all_lookup (λ p, decoded p.1) (λ p, decoded p.2)).
  - apply Join_no_byte; [|done]. apply Forall_fmap.
    eapply Forall_impl; [done|]. intros p [Hk Hv]. simpl.
    by apply pair_string_no_byte; [|apply escaped_no_hash..].
Qed.

(** C6 as stated fails: with a key that is not escaped, an escaped value is
    not read back (the value 1 of the key a#b is lost, the key a is read
    with an empty value); and neither is it when the path holds a question
    mark (the value 1 is read back as 2?a=1, under the key x). *)
Lemma escaped_value_not_read_back :
  percent_escaped "1" = true ∧
  (∃ u, buildURL in_map_order "/p" {["a#b" := ["1"]]} = inr u ∧
        url.Query u = {["a" := [""]]}) ∧
  (∃ u, buildURL in_map_order "/p?x=2" {["a" := ["1"]]} = inr u ∧
        url.Query u = {["x" := ["2?a=1"]]}).
Proof.
  split; [reflexivity|]. split; eexists; (split; [reflexivity|]); vm_compute; reflexivity.
Qed.

(** C6, amended. For a query mapping that is not empty and whose keys and
    values are percent-escaped, and a path without question mark and number
    sign, the URL that [buildURL] returns reads back exactly the pairs
    written, each decoded once: under a name, the decoded values of the keys
    that decode to it, in the order written. So a key whose decoded form no
    other key shares is read back, under its decoded form, with its own
    values decoded once and in their order (with no entry when it has no
    value), and every name read back is a decoded key. *)
Theorem query_read_back_decoded_once (range : iteration) (path : string)
    (query : gmap string (list string)) (u : url.URL) :
  range_ok range →
  query ≠ ∅ →
  has_byte "?" path = false → has_byte "#" path = false →
  (∀ k vs, query !! k = Some vs →
     percent_escaped k = true ∧ Forall (λ v, percent_escaped v = true) vs) →
  buildURL range path query = inr u →
  (∀ name,
     url.Query u !! name =
     match (λ p, decoded p.2) <$>
             filter (λ p, decoded p.1 = name) (query_pairs (range _ query)) with
     | [] => None
     | vs => Some vs
     end) ∧
  (∀ k vs, query !! k = Some vs →
     (∀ k2, is_Some (query !! k2) → decoded k2 = decoded k → k2 = k) →
     url.Query u !! decoded k = if vs is [] then None else Some (decoded <$> vs)) ∧
  (∀ name, is_Some (url.Query u !! name) → ∃ k, is_Some (query !! k) ∧ name = decoded k).
Proof.
  intros Hrange Hne Hpath Hhash Hescaped Hu.
  rewrite buildURL_nonempty in Hu by done.
  assert (∀ p, p ∈ query_pairs (range _ query) →
            ∃ vs, query !! p.1 = Some vs ∧ p.2 ∈ vs) as Hpairs.
  { intros [k v] (vs & Hkvs & Hv)%elem_of_query_pairs.
    apply range_lookup in Hkvs; eauto. }
  assert (Forall (λ p, percent_escaped p.1 = true ∧ percent_escaped p.2 = true)
                 (query_pairs (range _ query))) as Hps.
  { apply Forall_forall. intros p (vs & Hk & Hv)%Hpairs.
    destruct (Hescaped _ _ Hk) as [? Hvs]. split; [done|].
    by eapply Forall_forall in Hvs. }
  pose proof (λ name, Query_of_pairs path _ u name Hpath Hhash Hps Hu) as Hquery.
  split; [done|]. split.
  - intros k vs Hk Hdistinct. rewrite Hquery.
    rewrite (filter_ext_elem _ (λ p, p.1 = k)).
    + rewrite query_pairs_of_key, Hk by done. simpl. rewrite <-list_fmap_compose.
      by destruct vs.
    + intros p (vs' & Hk' & _)%Hpairs. split; [|by intros ->].
      apply Hdistinct; eauto.
  - intros name. rewrite Hquery.
    destruct (filter _ _) as [|p ps] eqn:Hfilter; [by intros [? [=]]|]. intros _.
    assert (p ∈ filter (λ p, decoded p.1 = name) (query_pairs (range _ query)))
      as [Hname (vs & Hk & _)%Hpairs]%list_elem_of_filter by (rewrite Hfilter; left).
    exists p.1. split; [eauto | done].
Qed.

(** The event of the specification: the value hello%20world is read back as
    hello world. *)
Lemma query_read_back_decoded_once_witness :
  ∃ u, buildURL in_map_order "/search" {["q" := ["hello%20world"]]} = inr u ∧
       url.Query u !! "q" = Some ["hello world"].
Proof.
  eexists. split; [reflexivity|].
  refine (proj1 (proj2 (query_read_back_decoded_once in_map_order "/search"
                   {["q" := ["hello%20world"]]} _ _ _ _ _ _ _)) "q" ["hello%20world"] _ _).
  - intros V m. reflexivity.
  - apply (bool_decide_unpack _). vm_compute. exact I.
  - reflexivity.
  - reflexivity.
  - intros k vs [<- <-]%lookup_singleton_Some. split; [reflexivity|].
    repeat constructor.
  - reflexivity.
  - reflexivity.
  - by intros k2 [? [<- _]%lookup_singleton_Some] _.
Defined.

(** ** Keys without values *)

Lemma query_pairs_without_empty (kvs : list (string * list string)) :
  query_pairs (filter (λ kv, kv.2 ≠ []) kvs) = query_pairs kvs.
Proof.
  induction kvs as [|[k vs] kvs IH]; [done|].
  rewrite filter_cons. destruct (decide ((k, vs).2 ≠ [])) as [Hvs|Hvs].
  - by rewrite !query_pairs_cons, IH.
  - apply dec_stable in Hvs. simpl in Hvs. subst vs. by rewrite query_pairs_cons, IH.
Qed.

Lemma query_pairs_all_empty (kvs : list (string * list string)) :
  Forall (λ kv, kv.2 = []) kvs → query_pairs kvs = [].
Proof.
  induction 1 as [|[k vs] kvs Hvs _ IH]; [done|].
  simpl in Hvs. subst vs. by rewrite query_pairs_cons, IH.
Qed.

(** C10 as stated fails: [buildURL] appends the question mark to the path
    as it is given. For a path that holds a question mark of its own, a
    mapping whose only key has no value gives the URL parsed from the path
    and a question mark, and its query is not empty. *)
Lemma empty_values_query_not_empty :
  ∃ u, buildURL in_map_order "/p?x=1" {["a" := []]} = inr u ∧
       url.Parse ("/p?x=1" +:+ "?") = inr u ∧
       url.RawQuery u = "x=1?" ∧
       url.Query u = {["x" := ["1?"]]}.
Proof.
  eexists. split; [reflexivity|]. split; [reflexivity|].
  split; [reflexivity|]. vm_compute. reflexivity.
Qed.

(** C10, amended. For a query mapping that is not empty, a key whose
    sequence of values is empty adds no pair to the query string: the string
    parsed is the one built from the other keys alone. When every key has an
    empty sequence, the string parsed is the path followed by a question
    mark, and the URL parsed from it has an empty query when the path holds
    no question mark. *)
Theorem empty_values_dropped (range : iteration) (path : string)
    (query : gmap string (list string)) :
  range_ok range →
  query ≠ ∅ →
  buildURL range path query =
    url.Parse (path +:+ "?" +:+
               strings.Join (pair_string <$>
                 query_pairs (filter (λ kv, kv.2 ≠ []) (range _ query))) "&") ∧
  (∀ k, query !! k = Some [] →
     ∀ p, p ∈ query_pairs (range _ query) → p.1 ≠ k) ∧
  ((∀ k vs, query !! k = Some vs → vs = []) →
     buildURL range path query = url.Parse (path +:+ "?") ∧
     (has_byte "?" path = false →
      ∀ u, buildURL range path query = inr u →
           url.RawQuery u = "" ∧ url.Query u = ∅)).
Proof.
  intros Hrange Hne.
  pose proof (buildURL_nonempty range path query Hne) as Hstring.
  split; [|split].
  - by rewrite query_pairs_without_empty.
  - intros k Hk p Hp <-.
    assert (p ∈ filter (λ p', p'.1 = p.1) (query_pairs (range _ query))) as Hin.
    { by apply list_elem_of_filter. }
    rewrite query_pairs_of_key, Hk in Hin by done. by apply elem_of_nil in Hin.
  - intros Hempty.
    assert (query_pairs (range _ query) = []) as Hnone.
    { apply query_pairs_all_empty, Forall_forall. intros [k vs] Hkv.
      apply range_lookup in Hkv; [|done]. simpl. eauto. }
    rewrite Hnone in Hstring. simpl in Hstring. rewrite append_nil_r in Hstring.
    split; [done|].
    intros Hpath u Hu. rewrite Hstring in Hu.
    apply Parse_lone_question in Hu; [|done].
    split; [done|]. unfold url.Query. by rewrite Hu.
Qed.

(** A mapping with a key without values beside a key with one value, and a
    mapping whose only key has no value, also under a path with a number
    sign. *)
Lemma empty_values_dropped_witness :
  buildURL in_map_order "/p" {["a" := []; "b" := ["1"]]} = url.Parse "/p?b=1" ∧
  buildURL in_map_order "/p" {["a" := []]} = url.Parse "/p?" ∧
  (∀ u, buildURL in_map_order "/p#f" {["a" := []]} = inr u →
        url.RawQuery u = "" ∧ url.Query u = ∅).
Proof.
  destruct (empty_values_dropped in_map_order "/p" {["a" := []; "b" := ["1"]]})
    as (Hdropped & _).
  { intros V m. reflexivity. }
  { apply (bool_decide_unpack _). vm_compute. exact I. }
  destruct (empty_values_dropped in_map_order "/p" {["a" := []]}) as (_ & _ & Hall).
  { intros V m. reflexivity. }
  { apply (bool_decide_unpack _). vm_compute. exact I. }
  destruct Hall as [Hstring _].
  { by intros k vs [_ <-]%lookup_singleton_Some. }
  destruct (empty_values_dropped in_map_order "/p#f" {["a" := []]}) as (_ & _ & Hhash).
  { intros V m. reflexivity. }
  { apply (bool_decide_unpack _). vm_compute. exact I. }
  destruct Hhash as [_ Hquery].
  { by intros k vs [_ <-]%lookup_singleton_Some. }
  split; [|split].
  - rewrite Hdropped. reflexivity.
  - exact Hstring.
  - exact (Hquery eq_refl).
Defined.

(** ** Header names *)

(** One step of [textproto.canonicalize]. *)
Lemma canonicalize_cons c (a : string) (upper : bool) :
  textproto.canonicalize (String c a) upper =
  let c' := if upper && between "a" c "z" then ascii_of_N (code c - textproto.toLower)
            else if negb upper && between "A" c "Z" then ascii_of_N (code c + textproto.toLower)
            else c in
  String c' (textproto.canonicalize a (bool_decide (c' = "-"%char))).
Proof. reflexivity. Qed.

Lemma canonicalize_lower_byte c (upper : bool) :
  (if upper && between "a" (strings.lower c) "z"
   then ascii_of_N (code (strings.lower c) - textproto.toLower)
   else if negb upper && between "A" (strings.lower c) "Z"
   then ascii_of_N (code (strings.lower c) + textproto.toLower)
   else strings.lower c) =
  (if upper && between "a" c "z" then ascii_of_N (code c - textproto.toLower)
   else if negb upper && between "A" c "Z" then ascii_of_N (code c + textproto.toLower)
   else c).
Proof. destruct upper, c as [[] [] [] [] [] [] [] []]; reflexivity. Qed.

(** The canonical spelling depends on the letters, not on their case. *)
Lemma canonicalize_ToLower (s : string) (upper : bool) :
  textproto.canonicalize (strings.ToLower s) upper = textproto.canonicalize s upper.
Proof.
  revert upper. induction s as [|c s IH]; intros upper; [done|].
  simpl strings.ToLower. rewrite !canonicalize_cons. cbv zeta.
  by rewrite canonicalize_lower_byte, IH.
Qed.

Lemma validHeaderFieldByte_lower c :
  textproto.validHeaderFieldByte (strings.lower c) = textproto.validHeaderFieldByte c.
Proof. destruct c as [[] [] [] [] [] [] [] []]; reflexivity. Qed.

Lemma token_ToLower (s : string) : token (strings.ToLower s) = token s.
Proof.
  unfold token. induction s as [|c s IH]; [done|].
  simpl. by rewrite validHeaderFieldByte_lower, IH.
Qed.

Lemma token_append (s t : string) : token (s +:+ t) = token s && token t.
Proof.
  unfold token. induction s as [|c s IH]; [done|].
  rewrite append_cons. simpl. rewrite IH. by destruct (textproto.validHeaderFieldByte c).
Qed.

Lemma looks_like_key_token (a : string) (noCanon : bool) :
  token a = true → textproto.looks_like_key a noCanon = Some noCanon.
Proof.
  unfold token. induction a as [|c a IH]; [done|]. simpl.
  intros [-> Ha]%andb_true_iff. by apply IH.
Qed.

Lemma canonicalMIMEHeaderKey_token (a : string) :
  token a = true → (textproto.canonicalMIMEHeaderKey a).1 = textproto.canonicalize a true.
Proof.
  intros Ha. unfold textproto.canonicalMIMEHeaderKey.
  destruct a as [|c a]; [done|]. by rewrite looks_like_key_token.
Qed.

Lemma CanonicalMIMEHeaderKey_scan_cons (s : string) c (rest : string) (upper : bool) :
  textproto.CanonicalMIMEHeaderKey_scan s (String c rest) upper =
  if negb (textproto.validHeaderFieldByte c) then s
  else if upper && between "a" c "z" then (textproto.canonicalMIMEHeaderKey s).1
  else if negb upper && between "A" c "Z" then (textproto.canonicalMIMEHeaderKey s).1
  else textproto.CanonicalMIMEHeaderKey_scan s rest (bool_decide (c = "-"%char)).
Proof. reflexivity. Qed.

(** The scan of [CanonicalMIMEHeaderKey] over a name of token bytes, [pre]
    being the part already found in canonical spelling. *)
Lemma CanonicalMIMEHeaderKey_scan_token (rest pre : string) (upper : bool) :
  token pre = true → token rest = true →
  textproto.canonicalize (pre +:+ rest) true = pre +:+ textproto.canonicalize rest upper →
  textproto.CanonicalMIMEHeaderKey_scan (pre +:+ rest) rest upper =
  pre +:+ textproto.canonicalize rest upper.
Proof.
  revert pre upper. induction rest as [|c rest IH]; intros pre upper Hpre Hrest Hcanon.
  - done.
  - pose proof Hrest as [Hc Hrest']%andb_true_iff.
    assert (token (pre +:+ String c rest) = true) as Hall
      by by rewrite token_append, Hpre, Hrest.
    rewrite CanonicalMIMEHeaderKey_scan_cons, Hc. cbn [negb].
    rewrite canonicalize_cons in Hcanon |- *. cbv zeta in Hcanon |- *.
    destruct (upper && between "a" c "z") eqn:Hup.
    { by rewrite canonicalMIMEHeaderKey_token. }
    destruct (negb upper && between "A" c "Z") eqn:Hlow.
    { by rewrite canonicalMIMEHeaderKey_token. }
    replace (pre +:+ String c rest) with ((pre +:+ String c "") +:+ rest) in *
      by by rewrite append_assoc.
    rewrite IH; [by rewrite append_assoc| |done|].
    + rewrite token_append, Hpre. unfold token. simpl. by rewrite Hc.
    + rewrite Hcanon. by rewrite append_assoc.
Qed.

Lemma CanonicalMIMEHeaderKey_token (s : string) :
  token s = true → textproto.CanonicalMIMEHeaderKey s = textproto.canonicalize s true.
Proof.
  intros Hs. unfold textproto.CanonicalMIMEHeaderKey.
  by apply (CanonicalMIMEHeaderKey_scan_token s "" true).
Qed.

(** Two spellings of a name of token bytes have one canonical form. *)
Lemma CanonicalMIMEHeaderKey_same_name (k k' : string) :
  token k = true → same_name k' k →
  textproto.CanonicalMIMEHeaderKey k' = textproto.CanonicalMIMEHeaderKey k.
Proof.
  intros Hk Hsame.
  assert (token k' = true) as Hk'.
  { by rewrite <-token_ToLower, Hsame, token_ToLower. }
  rewrite !CanonicalMIMEHeaderKey_token by done.
  by rewrite <-(canonicalize_ToLower k'), Hsame, canonicalize_ToLower.
Qed.

(** ** The header map of the request *)

Section rekeyed.
Context {V : Type} (g : string → string).

(** A loop that stores each entry under the key [g k]: later entries
    overwrite earlier ones with the same [g k]. *)
Let store (headers : gmap string V) (kv : string * V) : gmap string V :=
  <[g kv.1 := kv.2]> headers.

Lemma rekeyed_lookup_other (l : list (string * V)) (acc : gmap string V) key :
  (∀ kv, kv ∈ l → g kv.1 ≠ key) → foldl store acc l !! key = acc !! key.
Proof.
  revert acc. induction l as [|kv l IH]; intros acc Hl; [done|].
  simpl. rewrite IH by (intros ??; apply Hl; by right).
  unfold store. rewrite lookup_insert_ne; [done|]. apply Hl. by left.
Qed.

Lemma rekeyed_lookup_unique (l : list (string * V)) (acc : gmap string V) key v :
  (∀ kv, kv ∈ l → g kv.1 = key → kv.2 = v) →
  acc !! key = Some v ∨ (∃ kv, kv ∈ l ∧ g kv.1 = key) →
  foldl store acc l !! key = Some v.
Proof.
  revert acc. induction l as [|kv l IH]; intros acc Hl Hin.
  - destruct Hin as [?|(kv & []%elem_of_nil & _)]. done.
  - simpl. apply IH; [intros ??; apply Hl; by right|].
    unfold store. destruct (decide (g kv.1 = key)) as [Hkey|Hkey].
    + left. rewrite Hkey, lookup_insert_eq. f_equal. apply Hl; [by left|done].
    + rewrite lookup_insert_ne by done.
      destruct Hin as [?|(kv' & [->|?]%elem_of_cons & ?)]; [by left|done|eauto].
Qed.

Lemma rekeyed_lookup_is_Some (l : list (string * V)) key :
  is_Some (foldl store ∅ l !! key) ↔ ∃ kv, kv ∈ l ∧ g kv.1 = key.
Proof.
  split.
  - intros Hsome. destruct (decide (Exists (λ kv, g kv.1 = key) l)) as [Hex|Hex].
    + apply Exists_exists in Hex. naive_solver.
    + rewrite rekeyed_lookup_other in Hsome; [by destruct Hsome|].
      intros kv Hkv Hkey. apply Hex, Exists_exists. eauto.
  - intros Hex. pose proof Hex as (kv & Hkv & Hkey). revert Hex.
    generalize (∅ : gmap string V). clear kv Hkv Hkey.
    induction l as [|kv l IH]; intros acc Hex; [by destruct Hex as (? & []%elem_of_nil & _)|].
    simpl. destruct (decide (Exists (λ kv, g kv.1 = key) l)) as [Hl|Hl].
    + apply IH. apply Exists_exists in Hl. naive_solver.
    + rewrite rekeyed_lookup_other.
      * destruct Hex as (kv' & [->|Hkv']%elem_of_cons & Hkey').
        -- unfold store. rewrite Hkey', lookup_insert_eq. eauto.
        -- destruct Hl. apply Exists_exists. eauto.
      * intros kv' Hkv' Hkey'. apply Hl, Exists_exists. eauto.
Qed.
End rekeyed.

Lemma Run_request_Header range ctx req r :
  Run_request range ctx req = Returns (inr r) →
  http.Request.Header r =
    foldl (λ headers kv, <[textproto.CanonicalMIMEHeaderKey kv.1 := kv.2]> headers) ∅
          (range _ (HeadersProvided range req)).
Proof.
  unfold Run_request.
  destruct (buildURL _ _ _) as [e|u]; [done|].
  destruct ctx as [ctx|]; [|done].
  destruct (request.BodyEncoded req).
  - destruct (base64.DecodeString _) as [b [e|]]; [done|]. by intros [= <-].
  - by intros [= <-].
Qed.

(** C8 as stated fails. A key that is not made of token bytes is not
    rewritten, and a lookup in another casing misses it. And two keys that
    are spellings of one name are stored under one canonical key, where the
    later one in the order of the loop overwrites the earlier: one of the
    two supplied values is lost, and both spellings look up the other,
    whatever the order. *)
Lemma header_not_found_in_other_casing :
  (∃ r, Run_request in_map_order (Some Background)
          (request.mk "GET" "/" None None (Some {["x y" := "v"]}) None "" false) = Returns (inr r) ∧
        http.Request.Header r = {["x y" := ["v"]]} ∧
        http.Header_Get (http.Request.Header r) "x y" = "v" ∧
        http.Header_Get (http.Request.Header r) "X Y" = "") ∧
  (∃ r, Run_request in_map_order (Some Background)
          (request.mk "GET" "/" None None
             (Some {["content-type" := "a"; "Content-Type" := "b"]}) None "" false)
        = Returns (inr r) ∧
        http.Request.Header r = {["Content-Type" := ["b"]]} ∧
        http.Header_Get (http.Request.Header r) "content-type" = "b") ∧
  (∀ h : http.Header, http.Header_Get h "content-type" = http.Header_Get h "Content-Type").
Proof.
  split; [|split]; [eexists; (split; [reflexivity|]); vm_compute; done..|].
  intros h. reflexivity.
Qed.

(** C8, amended. Before the handler runs, every header key of the event, in
    either form, is rewritten by [textproto.CanonicalMIMEHeaderKey]: the keys
    of the request's header map are the rewritten keys. A key made of token
    bytes whose canonical form no other key of the event shares is found
    under any casing of its name: the lookup returns its values, and [Get]
    the first of them (the empty string when it has none). *)
Theorem header_lookup_any_casing (range : iteration) (ctx : option Context) (req : request)
    (r : http.Request.t) :
  range_ok range →
  Run_request range ctx req = Returns (inr r) →
  (∀ key, is_Some (http.Request.Header r !! key) ↔
          ∃ k, is_Some (HeadersProvided range req !! k) ∧
               key = textproto.CanonicalMIMEHeaderKey k) ∧
  (∀ k vs k',
     HeadersProvided range req !! k = Some vs →
     token k = true →
     (∀ k2, is_Some (HeadersProvided range req !! k2) →
            textproto.CanonicalMIMEHeaderKey k2 = textproto.CanonicalMIMEHeaderKey k →
            k2 = k) →
     same_name k' k →
     http.Request.Header r !! textproto.CanonicalMIMEHeaderKey k' = Some vs ∧
     http.Header_Get (http.Request.Header r) k' = default "" (head vs)).
Proof.
  intros Hrange Hr. rewrite (Run_request_Header _ _ _ _ Hr). split.
  - intros key. rewrite (rekeyed_lookup_is_Some textproto.CanonicalMIMEHeaderKey). split.
    + intros ([k vs] & Hkv%range_lookup & <-); eauto.
    + intros (k & [vs Hk] & ->). exists (k, vs). split; [|done]. by apply range_lookup.
  - intros k vs k' Hk Htoken Hunique Hsame.
    assert (foldl (λ (headers : http.Header) kv,
                     <[textproto.CanonicalMIMEHeaderKey kv.1 := kv.2]> headers) ∅
              (range _ (HeadersProvided range req))
              !! textproto.CanonicalMIMEHeaderKey k' = Some vs) as Hlookup.
    { rewrite (CanonicalMIMEHeaderKey_same_name k k') by done.
      apply (rekeyed_lookup_unique textproto.CanonicalMIMEHeaderKey).
      - intros [k2 vs2] Hkv%range_lookup Hcanon; [|done]. simpl in *.
        assert (k2 = k) as -> by eauto. congruence.
      - right. exists (k, vs). split; [|done]. by apply range_lookup. }
    split; [done|]. unfold http.Header_Get. rewrite Hlookup. by destruct vs.
Qed.

(** The event of the specification: a header supplied as content-type is
    found as Content-Type, and as CONTENT-TYPE. *)
Lemma header_lookup_any_casing_witness :
  ∃ r, Run_request in_map_order (Some Background)
         (request.mk "GET" "/" None None (Some {["content-type" := "application/json"]})
                     None "" false) = Returns (inr r) ∧
       http.Header_Get (http.Request.Header r) "Content-Type" = "application/json" ∧
       http.Header_Get (http.Request.Header r) "CONTENT-TYPE" = "application/json".
Proof.
  eexists. split; [reflexivity|].
  pose proof (header_lookup_any_casing in_map_order (Some Background)
                (request.mk "GET" "/" None None
                   (Some {["content-type" := "application/json"]}) None "" false)
                _ (λ V m, reflexivity _) eq_refl) as [_ Hfound].
  assert (∀ k2,
    is_Some (({["content-type" := ["application/json"]]} : gmap string (list string)) !! k2) →
    k2 = "content-type") as Honly.
  { by intros k2 [? [<- _]%lookup_singleton_Some]. }
  split.
  - refine (proj2 (Hfound "content-type" ["application/json"] "Content-Type" _ _ _ _)).
    + reflexivity.
    + reflexivity.
    + intros k2 Hk2 _. exact (Honly k2 Hk2).
    + reflexivity.
  - refine (proj2 (Hfound "content-type" ["application/json"] "CONTENT-TYPE" _ _ _ _)).
    + reflexivity.
    + reflexivity.
    + intros k2 Hk2 _. exact (Honly k2 Hk2).
    + reflexivity.
Defined.

(** ** The outcomes of a run *)

Lemma Run_request_inl range h ctx req err :
  Run_request range ctx req = Returns (inl err) → Run range h ctx req = Returns (None, Some err).
Proof. unfold Run. by intros ->. Qed.

Lemma Run_request_cases range ctx req :
  Run_request range ctx req =
  match buildURL range (request.Path req) (QueryProvided range req) with
  | inl err => Returns (inl err)
  | inr u =>
      match ctx with
      | None => Panics "nil context"
      | Some ctx =>
          match request_bytes req with
          | (_, Some err) => Returns (inl err)
          | (b, None) =>
              Returns (inr (http.Request.mk 1 1 "HTTP/1.1" (request.Method req) u
                 (foldl (λ headers kv, <[textproto.CanonicalMIMEHeaderKey kv.1 := kv.2]> headers)
                        ∅ (range _ (HeadersProvided range req)))
                 (http.Header_Get
                    (foldl (λ headers kv, <[textproto.CanonicalMIMEHeaderKey kv.1 := kv.2]> headers)
                           ∅ (range _ (HeadersProvided range req))) "Host")
                 ctx b
                 (if request.BodyEncoded req then Z.of_nat (length b)
                  else Z.of_nat (String.length (request.Body req)))))
          end
      end
  end.
Proof.
  unfold Run_request, request_bytes.
  destruct (buildURL _ _ _) as [e|u]; [done|].
  destruct ctx as [ctx|]; [|done].
  destruct (request.BodyEncoded req); [|done].
  by destruct (base64.DecodeString _) as [b [e|]].
Qed.

Lemma Run_reply_body range req recorder :
  (response.Body (Run_reply range req recorder),
   response.BodyEncoded (Run_reply range req recorder)) =
  if utf8.Valid (httptest.Body_Bytes recorder)
  then (string_of_bytes (httptest.Body_Bytes recorder), false)
  else (base64.EncodeToString (httptest.Body_Bytes recorder), true).
Proof.
  unfold Run_reply, SetHeaders.
  by destruct (utf8.Valid _), (request.MultiValueHeaders req).
Qed.

(** X5. A client that decodes the body of a reply when the reply says it is
    encoded, and takes its bytes otherwise, reads exactly the bytes the
    handler wrote, without error. *)
Theorem reply_body_round_trip (range : iteration) (h : http_Handler) (c : option Context)
    (req : request) (out : response) (err : option error) :
  Run range h c req = Returns (Some out, err) →
  ∃ r recorder,
    Run_request range c req = Returns (inr r) ∧ h r = Returns recorder ∧
    reply_bytes out = (httptest.Body_Bytes recorder, None).
Proof.
  intros (r & recorder & Hr & Hh & -> & _)%Run_returns.
  exists r, recorder. split; [done|]. split; [done|].
  unfold reply_bytes. pose proof (Run_reply_body range req recorder) as Hbody.
  destruct (utf8.Valid _); injection Hbody as -> ->.
  - unfold bytes_of_string, string_of_bytes.
    by rewrite list_byte_of_string_of_list_byte.
  - apply DecodeString_EncodeToString.
Qed.

Lemma reply_body_round_trip_witness :
  (∃ out, Run in_map_order (replying ∅ [x00; x01; x02; xff; xfe]%byte) (Some Background)
            (get "/binary") = Returns (Some out, None) ∧
          reply_bytes out = ([x00; x01; x02; xff; xfe]%byte, None)) ∧
  (∃ out, Run in_map_order (replying ∅ (bytes_of_string "Hello")) (Some Background)
            (get "/text") = Returns (Some out, None) ∧
          reply_bytes out = (bytes_of_string "Hello", None)).
Proof.
  split.
  - eexists. split; [reflexivity|].
    destruct (reply_body_round_trip in_map_order
                (replying ∅ [x00; x01; x02; xff; xfe]%byte) (Some Background) (get "/binary")
                _ None eq_refl) as (r & recorder & _ & Hh & Hbytes).
    injection Hh as <-. exact Hbytes.
  - eexists. split; [reflexivity|].
    destruct (reply_body_round_trip in_map_order
                (replying ∅ (bytes_of_string "Hello")) (Some Background) (get "/text")
                _ None eq_refl) as (r & recorder & _ & Hh & Hbytes).
    injection Hh as <-. exact Hbytes.
Defined.

(** X6. A handler that writes the body of the request back gives an echo:
    under a context that is not nil, when the URL builds and the body of the
    event carries the bytes [b] (as text, or encoded), the run returns a
    reply and no error, and the client reads [b] from the reply. *)
Theorem echo_round_trip (range : iteration) (h : http_Handler) (c : Context)
    (req : request) (b : bytes) :
  copies_body h →
  (∃ u, buildURL range (request.Path req) (QueryProvided range req) = inr u) →
  request_bytes req = (b, None) →
  ∃ out, Run range h (Some c) req = Returns (Some out, None) ∧
         reply_bytes out = (b, None).
Proof.
  intros Hcopy [u Hu] Hb. unfold Run. rewrite Run_request_cases, Hu, Hb.
  destruct (Hcopy (http.Request.mk 1 1 "HTTP/1.1" (request.Method req) u
                 (foldl (λ headers kv, <[textproto.CanonicalMIMEHeaderKey kv.1 := kv.2]> headers)
                        ∅ (range _ (HeadersProvided range req)))
                 (http.Header_Get
                    (foldl (λ headers kv, <[textproto.CanonicalMIMEHeaderKey kv.1 := kv.2]> headers)
                           ∅ (range _ (HeadersProvided range req))) "Host")
                 c b
                 (if request.BodyEncoded req then Z.of_nat (length b)
                  else Z.of_nat (String.length (request.Body req))))) as [res ->].
  eexists. split; [done|]. simpl.
  unfold reply_bytes.
  pose proof (Run_reply_body range req
                {| httptest.Result := res; httptest.Body_Bytes := b |}) as Hbody.
  simpl in Hbody. destruct (utf8.Valid b); injection Hbody as -> ->.
  - unfold bytes_of_string, string_of_bytes.
    by rewrite list_byte_of_string_of_list_byte.
  - apply DecodeString_EncodeToString.
Qed.

Lemma echo_round_trip_witness :
  ∃ out, Run in_map_order echo (Some Background)
           (request.mk "POST" "/echo" None None None None "AAEC//4=" true)
         = Returns (Some out, None) ∧
         reply_bytes out = ([x00; x01; x02; xff; xfe]%byte, None).
Proof.
  apply (echo_round_trip in_map_order echo Background
           (request.mk "POST" "/echo" None None None None "AAEC//4=" true)).
  - intros r. eexists. reflexivity.
  - eexists. reflexivity.
  - reflexivity.
Defined.

(** ** The encoding of the reply body *)

Lemma first_range (b : N) size lo hi :
  utf8.first b = Some (size, (lo, hi)) → (hi ≤ 0xBF)%N ∧ (0xC2 ≤ b)%N ∧ (b ≤ 0xF4)%N.
Proof.
  unfold utf8.first.
  repeat (case_match; [try (intros [= <- <- <-])|]); try done;
    rewrite ?N.ltb_lt, ?N.ltb_ge, ?N.leb_le, ?N.leb_gt, ?N.eqb_eq, ?N.eqb_neq in *; lia.
Qed.

Lemma never_utf8_ascii (b : byte) :
  never_utf8 b = true → (Byte.to_N b <? 0x80)%N = false.
Proof.
  unfold never_utf8. intros H. apply N.ltb_ge.
  apply orb_true_iff in H as [[H%N.eqb_eq|H%N.eqb_eq]%orb_true_iff|H%N.leb_le]; lia.
Qed.

Lemma never_utf8_first (b : byte) size lo hi :
  utf8.first (Byte.to_N b) = Some (size, (lo, hi)) → never_utf8 b = false.
Proof.
  intros (_ & Hlo & Hhi)%first_range. unfold never_utf8.
  apply orb_false_iff. split; [apply orb_false_iff; split|].
  - apply N.eqb_neq. lia.
  - apply N.eqb_neq. lia.
  - apply N.leb_gt. lia.
Qed.

Lemma never_utf8_in_range (c : byte) lo hi :
  (hi ≤ 0xBF)%N → utf8.in_range lo (Byte.to_N c) hi = true → never_utf8 c = false.
Proof.
  unfold utf8.in_range. intros Hhi [_ Hc%N.leb_le]%andb_true_iff. unfold never_utf8.
  apply orb_false_iff. split; [apply orb_false_iff; split|].
  - apply N.eqb_neq. lia.
  - apply N.eqb_neq. lia.
  - apply N.leb_gt. lia.
Qed.

(** A sequence that holds one of the bytes C0, C1, F5 to FF is not valid
    UTF-8, wherever the byte stands. *)
Lemma Valid_never_utf8 (p : bytes) :
  Exists (λ b, never_utf8 b = true) p → utf8.Valid p = false.
Proof.
  remember (length p) as n eqn:Hn. revert p Hn.
  induction (lt_wf n) as [n _ IH]. intros p -> Hp.
  assert (∀ q, (length q < length p)%nat →
               Exists (λ b, never_utf8 b = true) q → utf8.Valid q = false) as IHq.
  { intros q Hq. by apply (IH (length q)). }
  clear IH. destruct p as [|pi p1]; [by apply Exists_nil in Hp|].
  simpl. destruct (Byte.to_N pi <? 128)%N eqn:Hascii.
  { apply Exists_cons in Hp as [Hp|Hp].
    - apply never_utf8_ascii in Hp. congruence.
    - apply IHq; [simpl; lia | done]. }
  destruct (utf8.first (Byte.to_N pi)) as [[size [lo hi]]|] eqn:Hfirst; [|done].
  apply Exists_cons in Hp as [Hp|Hp];
    [apply never_utf8_first in Hfirst; congruence|].
  apply first_range in Hfirst as (Hhi & _).
  destruct p1 as [|c1 p2]; [done|].
  destruct (utf8.in_range lo (Byte.to_N c1) hi) eqn:Hc1; [simpl|done].
  apply Exists_cons in Hp as [Hp|Hp];
    [apply (never_utf8_in_range _ _ _ Hhi) in Hc1; congruence|].
  case_decide; [apply IHq; [simpl; lia | done]|].
  destruct p2 as [|c2 p3]; [done|].
  destruct (utf8.cont c2) eqn:Hc2; [simpl|done].
  apply Exists_cons in Hp as [Hp|Hp];
    [apply never_utf8_in_range in Hc2; [congruence | done]|].
  case_decide; [apply IHq; [simpl; lia | done]|].
  destruct p3 as [|c3 p4]; [done|].
  destruct (utf8.cont c3) eqn:Hc3; [simpl|done].
  apply Exists_cons in Hp as [Hp|Hp];
    [apply never_utf8_in_range in Hc3; [congruence | done]|].
  apply IHq; [simpl; lia | done].
Qed.

Lemma length_string_of_bytes (b : bytes) : String.length (string_of_bytes b) = length b.
Proof. induction b as [|c b IH]; [done|]. simpl. by rewrite <-IH. Qed.

(** The standard encoding writes four characters for every three bytes, the
    last group padded. *)
Lemma length_Encode (src : bytes) :
  String.length (base64.Encode src) = (4 * ((length src + 2) / 3))%nat.
Proof.
  induction src as [| | |b0 b1 b2 src IH] using list_ind_by_three; [done..|].
  change (String.length (base64.Encode (b0 :: b1 :: b2 :: src)))
    with (S (S (S (S (String.length (base64.Encode src)))))).
  rewrite IH. simpl length.
  replace (S (S (S (length src))) + 2)%nat with (length src + 2 + 1 * 3)%nat by lia.
  rewrite Nat.div_add by done. lia.
Qed.

Lemma Run_with_request range h c req r recorder :
  Run_request range c req = Returns (inr r) → h r = Returns recorder →
  Run range h c req = Returns (Some (Run_reply range req recorder), None).
Proof. unfold Run. by intros -> ->. Qed.

(** X7. A body of ASCII bytes is never encoded: when the handler, called on
    the request of the event, writes bytes below 0x80 only, the reply carries
    them as text and is not marked as encoded. *)
Theorem ascii_reply_is_text (range : iteration) (h : http_Handler) (c : option Context)
    (req : request) (r : http.Request.t) (recorder : httptest.Recorded) :
  Run_request range c req = Returns (inr r) →
  h r = Returns recorder →
  Forall (λ b, (Byte.to_N b < 0x80)%N) (httptest.Body_Bytes recorder) →
  ∃ out, Run range h c req = Returns (Some out, None) ∧
         response.Body out = string_of_bytes (httptest.Body_Bytes recorder) ∧
         response.BodyEncoded out = false.
Proof.
  intros Hr Hh Hascii. eexists. split; [by apply (Run_with_request _ _ _ _ r)|].
  pose proof (Run_reply_body range req recorder) as Hbody.
  rewrite Valid_ascii in Hbody by done. by injection Hbody as -> ->.
Qed.

Lemma ascii_reply_is_text_witness :
  ∃ out, Run in_map_order (replying ∅ (bytes_of_string "plain text")) (Some Background)
           (get "/") = Returns (Some out, None) ∧
         response.Body out = "plain text" ∧ response.BodyEncoded out = false.
Proof.
  refine (ascii_reply_is_text in_map_order (replying ∅ (bytes_of_string "plain text"))
            (Some Background) (get "/") _
            {| httptest.Result := http.Response.mk 200 "200 OK" ∅;
               httptest.Body_Bytes := bytes_of_string "plain text" |} _ _ _).
  - reflexivity.
  - reflexivity.
  - repeat constructor.
Defined.

(** X8. A body that holds one of the bytes C0, C1, F5 to FF, which no UTF-8
    text holds, is always encoded: the reply carries the standard base64
    encoding of the bytes written and is marked as encoded. *)
Theorem binary_reply_is_encoded (range : iteration) (h : http_Handler) (c : option Context)
    (req : request) (r : http.Request.t) (recorder : httptest.Recorded) :
  Run_request range c req = Returns (inr r) →
  h r = Returns recorder →
  Exists (λ b, never_utf8 b = true) (httptest.Body_Bytes recorder) →
  ∃ out, Run range h c req = Returns (Some out, None) ∧
         response.Body out = base64.EncodeToString (httptest.Body_Bytes recorder) ∧
         response.BodyEncoded out = true.
Proof.
  intros Hr Hh Hnever. eexists. split; [by apply (Run_with_request _ _ _ _ r)|].
  pose proof (Run_reply_body range req recorder) as Hbody.
  rewrite Valid_never_utf8 in Hbody by done. by injection Hbody as -> ->.
Qed.

Lemma binary_reply_is_encoded_witness :
  ∃ out, Run in_map_order (replying ∅ [x48; x69; xff]%byte) (Some Background)
           (get "/") = Returns (Some out, None) ∧
         response.Body out = "SGn/" ∧ response.BodyEncoded out = true.
Proof.
  refine (binary_reply_is_encoded in_map_order (replying ∅ [x48; x69; xff]%byte)
            (Some Background) (get "/") _
            {| httptest.Result := http.Response.mk 200 "200 OK" ∅;
               httptest.Body_Bytes := [x48; x69; xff]%byte |} _ _ _).
  - reflexivity.
  - reflexivity.
  - right. right. left. reflexivity.
Defined.

(** X9. The size of the body of a reply: as many characters as the handler
    wrote bytes when the reply is not encoded, and four characters for every
    three bytes written, rounded up to a whole group, when it is. *)
Theorem reply_body_size (range : iteration) (h : http_Handler) (c : option Context)
    (req : request) (out : response) (err : option error) :
  Run range h c req = Returns (Some out, err) →
  ∃ r recorder,
    Run_request range c req = Returns (inr r) ∧ h r = Returns recorder ∧
    String.length (response.Body out) =
      if response.BodyEncoded out
      then (4 * ((length (httptest.Body_Bytes recorder) + 2) / 3))%nat
      else length (httptest.Body_Bytes recorder).
Proof.
  intros (r & recorder & Hr & Hh & -> & _)%Run_returns.
  exists r, recorder. split; [done|]. split; [done|].
  pose proof (Run_reply_body range req recorder) as Hbody.
  destruct (utf8.Valid _); injection Hbody as -> ->.
  - apply length_string_of_bytes.
  - apply length_Encode.
Qed.

Lemma reply_body_size_witness :
  ∃ out, Run in_map_order (replying ∅ [x00; x01; x02; xff; xfe]%byte) (Some Background)
           (get "/binary") = Returns (Some out, None) ∧
         String.length (response.Body out) = 8%nat.
Proof.
  eexists. split; [reflexivity|].
  destruct (reply_body_size in_map_order
              (replying ∅ [x00; x01; x02; xff; xfe]%byte) (Some Background) (get "/binary")
              _ None eq_refl) as (r & recorder & _ & Hh & Hsize).
  injection Hh as <-. exact Hsize.
Defined.

(** ** Canonical header names are fixed points *)

Lemma canonicalize_byte_idem c (upper : bool) :
  let c' := if upper && between "a" c "z" then ascii_of_N (code c - textproto.toLower)
            else if negb upper && between "A" c "Z"
            then ascii_of_N (code c + textproto.toLower)
            else c in
  (if upper && between "a" c' "z" then ascii_of_N (code c' - textproto.toLower)
   else if negb upper && between "A" c' "Z" then ascii_of_N (code c' + textproto.toLower)
   else c') = c' ∧
  textproto.validHeaderFieldByte c' = textproto.validHeaderFieldByte c.
Proof. destruct upper, c as [[] [] [] [] [] [] [] []]; split; reflexivity. Qed.

Lemma token_canonicalize (s : string) (upper : bool) :
  token (textproto.canonicalize s upper) = token s.
Proof.
  unfold token. revert upper. induction s as [|c s IH]; intros upper; [done|].
  rewrite canonicalize_cons. cbv zeta. simpl.
  by rewrite (proj2 (canonicalize_byte_idem c upper)), IH.
Qed.

Lemma canonicalize_idem (s : string) (upper : bool) :
  textproto.canonicalize (textproto.canonicalize s upper) upper =
  textproto.canonicalize s upper.
Proof.
  revert upper. induction s as [|c s IH]; intros upper; [done|].
  rewrite (canonicalize_cons c s). cbv zeta. rewrite canonicalize_cons. cbv zeta.
  by rewrite (proj1 (canonicalize_byte_idem c upper)), IH.
Qed.

Lemma looks_like_key_Some_false (a : string) (noCanon : bool) :
  textproto.looks_like_key a noCanon = Some false → noCanon = false ∧ token a = true.
Proof.
  unfold token. revert noCanon. induction a as [|c a IH]; intros noCanon; simpl.
  - by intros [= ->].
  - destruct (textproto.validHeaderFieldByte c); simpl; [apply IH|].
    case_bool_decide; [|done]. by intros [[=] _]%IH.
Qed.

Lemma canonicalMIMEHeaderKey_not_token (a : string) :
  token a = false → (textproto.canonicalMIMEHeaderKey a).1 = a.
Proof.
  intros Ha. unfold textproto.canonicalMIMEHeaderKey. destruct a as [|c a]; [done|].
  destruct (textproto.looks_like_key _ _) as [[]|] eqn:Hlook; [done| |done].
  apply looks_like_key_Some_false in Hlook as [_ Htoken]. congruence.
Qed.

Lemma CanonicalMIMEHeaderKey_scan_not_token (s rest : string) (upper : bool) :
  token s = false → token rest = false →
  textproto.CanonicalMIMEHeaderKey_scan s rest upper = s.
Proof.
  intros Hs. revert upper. induction rest as [|c rest IH]; intros upper Hrest; [done|].
  rewrite CanonicalMIMEHeaderKey_scan_cons.
  destruct (textproto.validHeaderFieldByte c) eqn:Hc; [simpl|done].
  repeat case_match; try by apply canonicalMIMEHeaderKey_not_token.
  apply IH. unfold token in *. simpl in Hrest. by rewrite Hc in Hrest.
Qed.

(** A name that is not made of token bytes is left as it is. *)
Lemma CanonicalMIMEHeaderKey_not_token (s : string) :
  token s = false → textproto.CanonicalMIMEHeaderKey s = s.
Proof. intros Hs. by apply CanonicalMIMEHeaderKey_scan_not_token. Qed.

(** Rewriting a canonical name changes nothing. *)
Lemma CanonicalMIMEHeaderKey_idem (s : string) :
  textproto.CanonicalMIMEHeaderKey (textproto.CanonicalMIMEHeaderKey s) =
  textproto.CanonicalMIMEHeaderKey s.
Proof.
  destruct (token s) eqn:Hs.
  - rewrite (CanonicalMIMEHeaderKey_token s) by done.
    rewrite CanonicalMIMEHeaderKey_token by by rewrite token_canonicalize.
    apply canonicalize_idem.
  - rewrite (CanonicalMIMEHeaderKey_not_token s) by done.
    by apply CanonicalMIMEHeaderKey_not_token.
Qed.

(** X10. No header of the request is out of reach: every key of the header
    map that the handler receives is its own canonical form, so [Get] with
    that key returns the first value stored under it (the empty string when
    the list of values is empty). *)
Theorem request_headers_reachable (range : iteration) (c : option Context) (req : request)
    (r : http.Request.t) (key : string) (vs : list string) :
  Run_request range c req = Returns (inr r) →
  http.Request.Header r !! key = Some vs →
  textproto.CanonicalMIMEHeaderKey key = key ∧
  http.Header_Get (http.Request.Header r) key = default "" (head vs).
Proof.
  intros Hr Hkey.
  assert (textproto.CanonicalMIMEHeaderKey key = key) as Hcanon.
  { rewrite (Run_request_Header _ _ _ _ Hr) in Hkey.
    assert (is_Some (foldl (λ (headers : http.Header) kv,
                              <[textproto.CanonicalMIMEHeaderKey kv.1 := kv.2]> headers) ∅
                       (range _ (HeadersProvided range req)) !! key)) as Hsome by eauto.
    apply (rekeyed_lookup_is_Some textproto.CanonicalMIMEHeaderKey) in Hsome
      as (kv & _ & <-).
    apply CanonicalMIMEHeaderKey_idem. }
  split; [done|]. unfold http.Header_Get. rewrite Hcanon, Hkey. by destruct vs.
Qed.

Lemma request_headers_reachable_witness :
  ∃ r, Run_request in_map_order (Some Background)
         (request.mk "GET" "/" None None
            (Some {["x-request-id" := "42"; "bad key" := "v"]}) None "" false) = Returns (inr r) ∧
       http.Header_Get (http.Request.Header r) "X-Request-Id" = "42" ∧
       http.Header_Get (http.Request.Header r) "bad key" = "v".
Proof.
  eexists. split; [reflexivity|]. split.
  - refine (proj2 (request_headers_reachable in_map_order (Some Background)
                     (request.mk "GET" "/" None None
                        (Some {["x-request-id" := "42"; "bad key" := "v"]}) None "" false)
                     _ "X-Request-Id" ["42"] eq_refl _)).
    vm_compute. reflexivity.
  - refine (proj2 (request_headers_reachable in_map_order (Some Background)
                     (request.mk "GET" "/" None None
                        (Some {["x-request-id" := "42"; "bad key" := "v"]}) None "" false)
                     _ "bad key" ["v"] eq_refl _)).
    vm_compute. reflexivity.
Defined.

Lemma Run_request_Host range c req r :
  Run_request range c req = Returns (inr r) →
  http.Request.Host r = http.Header_Get (http.Request.Header r) "Host".
Proof.
  rewrite Run_request_cases.
  destruct (buildURL _ _ _) as [e|u]; [done|].
  destruct c as [c|]; [|done].
  destruct (request_bytes req) as [b [e|]]; [done|]. by intros [= <-].
Qed.

(** X11. The Host of the request comes from the headers of the event: when
    one key of the event, and no other, has Host as its canonical form (as
    the key host has), the Host of the request is the first of its values,
    or the empty string when it has none; when no key has, the Host of the
    request is empty. *)
Theorem request_Host_from_headers (range : iteration) (c : option Context) (req : request)
    (r : http.Request.t) :
  range_ok range →
  Run_request range c req = Returns (inr r) →
  (∀ k vs,
     HeadersProvided range req !! k = Some vs →
     textproto.CanonicalMIMEHeaderKey k = "Host" →
     (∀ k2, is_Some (HeadersProvided range req !! k2) →
            textproto.CanonicalMIMEHeaderKey k2 = "Host" → k2 = k) →
     http.Request.Host r = default "" (head vs)) ∧
  ((∀ k, is_Some (HeadersProvided range req !! k) →
         textproto.CanonicalMIMEHeaderKey k ≠ "Host") →
   http.Request.Host r = "").
Proof.
  intros Hrange Hr. rewrite (Run_request_Host _ _ _ _ Hr).
  unfold http.Header_Get. rewrite (Run_request_Header _ _ _ _ Hr).
  change (textproto.CanonicalMIMEHeaderKey "Host") with "Host".
  split.
  - intros k vs Hk Hcanon Hunique.
    rewrite (rekeyed_lookup_unique textproto.CanonicalMIMEHeaderKey _ _ "Host" vs).
    + by destruct vs.
    + intros [k2 vs2] Hkv%range_lookup Hcanon2; [|done]. simpl in *.
      assert (k2 = k) as -> by eauto. congruence.
    + right. exists (k, vs). split; [|done]. by apply range_lookup.
  - intros Hnone.
    rewrite (rekeyed_lookup_other textproto.CanonicalMIMEHeaderKey); [done|].
    intros [k vs] Hkv%range_lookup; [|done]. apply Hnone. simpl. eauto.
Qed.

Lemma request_Host_from_headers_witness :
  (∃ r, Run_request in_map_order (Some Background)
          (request.mk "GET" "/" None None (Some {["host" := "example.com"]}) None "" false)
        = Returns (inr r) ∧ http.Request.Host r = "example.com") ∧
  (∃ r, Run_request in_map_order (Some Background)
          (request.mk "GET" "/" None None (Some {["accept" := "*/*"]}) None "" false)
        = Returns (inr r) ∧ http.Request.Host r = "").
Proof.
  split.
  - eexists. split; [reflexivity|].
    refine (proj1 (request_Host_from_headers in_map_order (Some Background)
                     (request.mk "GET" "/" None None (Some {["host" := "example.com"]})
                                 None "" false) _ (λ V m, reflexivity _) eq_refl)
                  "host" ["example.com"] _ _ _).
    + reflexivity.
    + reflexivity.
    + intros k2 [vs Hk2] _. change (HeadersProvided _ _) with
        ((λ v : string, [v]) <$> ({["host" := "example.com"]} : gmap string string)) in Hk2.
      rewrite map_fmap_singleton in Hk2. by apply lookup_singleton_Some in Hk2 as [<- _].
  - eexists. split; [reflexivity|].
    refine (proj2 (request_Host_from_headers in_map_order (Some Background)
                     (request.mk "GET" "/" None None (Some {["accept" := "*/*"]})
                                 None "" false) _ (λ V m, reflexivity _) eq_refl) _).
    intros k [vs Hk]. change (HeadersProvided _ _) with
        ((λ v : string, [v]) <$> ({["accept" := "*/*"]} : gmap string string)) in Hk.
    rewrite map_fmap_singleton in Hk. apply lookup_singleton_Some in Hk as [<- _].
    vm_compute. discriminate.
Defined.

(** ** The order of iteration *)

Lemma in_reverse_order_ok : range_ok in_reverse_order.
Proof. intros V m. unfold in_reverse_order. by rewrite reverse_Permutation. Qed.

Lemma HeadersProvided_any_order range1 range2 req :
  range_ok range1 → range_ok range2 →
  HeadersProvided range1 req = HeadersProvided range2 req.
Proof.
  intros H1 H2. destruct (request.MultiValueHeaders req) as [m|] eqn:Hm.
  - by rewrite !(HeadersProvided_multi _ _ m).
  - by rewrite !HeadersProvided_single.
Qed.

Lemma SetHeaders_any_order range1 range2 r req res :
  range_ok range1 → range_ok range2 →
  SetHeaders range1 r req res = SetHeaders range2 r req res.
Proof.
  intros H1 H2. unfold SetHeaders.
  destruct (request.MultiValueHeaders req); [done|]. do 2 f_equal.
  rewrite (store_all_fmap (λ vv : list string, strings.Join vv ",")
                          (http.Response.Header res)) by done.
  by rewrite (store_all_fmap (λ vv : list string, strings.Join vv ",")
                             (http.Response.Header res)).
Qed.

(** X12. The order in which Go visits the entries of a map does not show in
    the maps that the adapter copies entry by entry: the headers and the
    query parameters taken from the single-value form of an event, and the
    reply made from a recorded response, are the same for every order. *)
Theorem copies_any_order (range1 range2 : iteration) (req : request) :
  range_ok range1 →
  range_ok range2 →
  HeadersProvided range1 req = HeadersProvided range2 req ∧
  QueryProvided range1 req = QueryProvided range2 req ∧
  (∀ r res, SetHeaders range1 r req res = SetHeaders range2 r req res) ∧
  (∀ recorder, Run_reply range1 req recorder = Run_reply range2 req recorder).
Proof.
  intros H1 H2. split; [by apply HeadersProvided_any_order|]. split; [|split].
  - destruct (request.MultiValueQuery req) as [m|] eqn:Hm.
    + by rewrite !(QueryProvided_multi _ _ m).
    + by rewrite !QueryProvided_single.
  - intros r res. by apply SetHeaders_any_order.
  - intros recorder. unfold Run_reply.
    by rewrite (SetHeaders_any_order range1 range2).
Qed.

Lemma copies_any_order_witness :
  let req := request.mk "GET" "/" (Some {["a" := "1"; "b" := "2"]}) None
                        (Some {["accept" := "*/*"; "host" := "example.com"]}) None
                        "" false in
  in_map_order _ (entries (request.Headers req)) ≠
    in_reverse_order _ (entries (request.Headers req)) ∧
  HeadersProvided in_map_order req = HeadersProvided in_reverse_order req ∧
  QueryProvided in_map_order req = QueryProvided in_reverse_order req.
Proof.
  intros req. split; [vm_compute; discriminate|].
  destruct (copies_any_order in_map_order in_reverse_order req) as (Hh & Hq & _).
  - intros V m. reflexivity.
  - intros V m. unfold in_reverse_order. by rewrite reverse_Permutation.
  - split; [exact Hh | exact Hq].
Defined.

(** X13. When no two header keys of the event share a canonical form, the
    header map and the Host of the request built are the same for every
    order in which Go visits the entries of the map. *)
Theorem request_headers_any_order (range1 range2 : iteration) (c : option Context)
    (req : request) (r1 r2 : http.Request.t) :
  range_ok range1 →
  range_ok range2 →
  (∀ k1 k2, is_Some (HeadersProvided range1 req !! k1) →
            is_Some (HeadersProvided range1 req !! k2) →
            textproto.CanonicalMIMEHeaderKey k1 = textproto.CanonicalMIMEHeaderKey k2 →
            k1 = k2) →
  Run_request range1 c req = Returns (inr r1) →
  Run_request range2 c req = Returns (inr r2) →
  http.Request.Header r1 = http.Request.Header r2 ∧
  http.Request.Host r1 = http.Request.Host r2.
Proof.
  intros H1 H2 Hdistinct Hr1 Hr2.
  assert (http.Request.Header r1 = http.Request.Header r2) as Heq.
  { rewrite (Run_request_Header _ _ _ _ Hr1), (Run_request_Header _ _ _ _ Hr2).
    rewrite <-(HeadersProvided_any_order range1 range2) by done.
    set (m := HeadersProvided range1 req) in *.
    assert (∀ range key, range_ok range →
      foldl (λ (headers : http.Header) kv,
               <[textproto.CanonicalMIMEHeaderKey kv.1 := kv.2]> headers) ∅ (range _ m)
        !! key =
      match decide (Exists (λ kv, textproto.CanonicalMIMEHeaderKey kv.1 = key)
                           (map_to_list m)) with
      | left _ => foldl (λ (headers : http.Header) kv,
               <[textproto.CanonicalMIMEHeaderKey kv.1 := kv.2]> headers) ∅ (map_to_list m)
                    !! key
      | right _ => None
      end) as Hlookup.
    { intros range key Hrange. case_decide as Hex.
      - apply Exists_exists in Hex as ([k vs] & Hkv%elem_of_map_to_list & Hkey).
        simpl in Hkey.
        rewrite !(rekeyed_lookup_unique textproto.CanonicalMIMEHeaderKey _ _ key vs); [done|..].
        + intros [k2 vs2] Hkv2%elem_of_map_to_list Hkey2. simpl in *.
          assert (k2 = k) as -> by (apply Hdistinct; eauto; congruence). congruence.
        + right. exists (k, vs). split; [|done]. by apply elem_of_map_to_list.
        + intros [k2 vs2] Hkv2%range_lookup Hkey2; [|done]. simpl in *.
          assert (k2 = k) as -> by (apply Hdistinct; eauto; congruence). congruence.
        + right. exists (k, vs). split; [|done]. by apply range_lookup.
      - rewrite (rekeyed_lookup_other textproto.CanonicalMIMEHeaderKey); [done|].
        intros [k vs] Hkv%range_lookup Hkey; [|done].
        apply Hex, Exists_exists. exists (k, vs). split; [|done].
        by apply elem_of_map_to_list. }
    apply map_eq. intros key. by rewrite !Hlookup. }
  split; [done|].
  by rewrite (Run_request_Host _ _ _ _ Hr1), (Run_request_Host _ _ _ _ Hr2), Heq.
Qed.

Lemma request_headers_any_order_witness :
  ∃ r1 r2,
    Run_request in_map_order (Some Background)
      (request.mk "GET" "/" None None None
         (Some {["accept" := ["*/*"]; "host" := ["example.com"]]}) "" false) = Returns (inr r1) ∧
    Run_request in_reverse_order (Some Background)
      (request.mk "GET" "/" None None None
         (Some {["accept" := ["*/*"]; "host" := ["example.com"]]}) "" false) = Returns (inr r2) ∧
    http.Request.Header r1 = http.Request.Header r2 ∧
    http.Request.Host r1 = http.Request.Host r2.
Proof.
  eexists _, _. split; [reflexivity|]. split; [reflexivity|].
  apply (request_headers_any_order in_map_order in_reverse_order (Some Background)
           (request.mk "GET" "/" None None None
              (Some {["accept" := ["*/*"]; "host" := ["example.com"]]}) "" false)).
  - intros V m. reflexivity.
  - intros V m. unfold in_reverse_order. by rewrite reverse_Permutation.
  - change (HeadersProvided _ _) with
      ({["accept" := ["*/*"]; "host" := ["example.com"]]} : gmap string (list string)).
    intros k1 k2 [vs1 Hk1] [vs2 Hk2].
    apply lookup_insert_Some in Hk1 as [[<- _]|[_ [<- _]%lookup_singleton_Some]];
      apply lookup_insert_Some in Hk2 as [[<- _]|[_ [<- _]%lookup_singleton_Some]];
      try done; vm_compute; discriminate.
  - reflexivity.
  - reflexivity.
Defined.

(** X14. In the single-value form the reply has the keys of the recorded
    headers and no other; a header recorded with one value is passed as that
    value, unchanged, and a header recorded with no value as the empty
    string. *)
Theorem reply_header_values (range : iteration) (h : http_Handler) (c : option Context)
    (req : request) (out : response) (err : option error) :
  range_ok range →
  request.MultiValueHeaders req = None →
  Run range h c req = Returns (Some out, err) →
  ∃ r recorder hs,
    Run_request range c req = Returns (inr r) ∧ h r = Returns recorder ∧
    response.Headers out = Some hs ∧
    (∀ k, is_Some (hs !! k) ↔
          is_Some (http.Response.Header (httptest.Result recorder) !! k)) ∧
    (∀ k v, http.Response.Header (httptest.Result recorder) !! k = Some [v] →
            hs !! k = Some v) ∧
    (∀ k, http.Response.Header (httptest.Result recorder) !! k = Some [] →
          hs !! k = Some "").
Proof.
  intros Hrange Hnil (r & recorder & Hr & Hh & -> & _)%Run_returns.
  exists r, recorder. eexists. split; [done|]. split; [done|].
  split.
  { unfold Run_reply.
    destruct (utf8.Valid _); simpl; by apply SetHeaders_single. }
  split; [|split].
  - intros k. rewrite lookup_fmap. by rewrite fmap_is_Some.
  - intros k v Hk. by rewrite lookup_fmap, Hk.
  - intros k Hk. by rewrite lookup_fmap, Hk.
Qed.

Lemma reply_header_values_witness :
  ∃ out, Run in_map_order
           (replying {["Content-Type" := ["text/html; charset=utf-8"]; "X-Empty" := []]} [])
           (Some Background) (get "/") = Returns (Some out, None) ∧
         ∃ hs, response.Headers out = Some hs ∧
               hs !! "Content-Type" = Some "text/html; charset=utf-8" ∧
               hs !! "X-Empty" = Some "".
Proof.
  eexists. split; [reflexivity|].
  destruct (reply_header_values in_map_order
              (replying {["Content-Type" := ["text/html; charset=utf-8"]; "X-Empty" := []]} [])
              (Some Background) (get "/") _ None (λ V m, reflexivity _) eq_refl eq_refl)
    as (r & recorder & hs & _ & Hh & Hhs & _ & Hone & Hnone).
  injection Hh as <-. exists hs. split; [exact Hhs|]. split.
  - apply Hone. reflexivity.
  - apply Hnone. reflexivity.
Defined.

(** ** What the query leaves of the path *)

Lemma all_bytes_append (p : ascii → bool) (s t : string) :
  url.all_bytes p (s +:+ t) = url.all_bytes p s && url.all_bytes p t.
Proof.
  induction s as [|c s IH]; [done|]. rewrite append_cons. simpl.
  rewrite IH. by destruct (p c).
Qed.

Lemma stringContainsCTLByte_append (s t : string) :
  url.stringContainsCTLByte (s +:+ t) =
  url.stringContainsCTLByte s || url.stringContainsCTLByte t.
Proof.
  unfold url.stringContainsCTLByte. rewrite all_bytes_append.
  by destruct (url.all_bytes _ s), (url.all_bytes _ t).
Qed.

(** A question mark that ends the string sets [ForceQuery]; otherwise the
    text after the first question mark is the query. *)
Lemma cut_query_force (p q : string) :
  has_byte "?" p = false →
  url.cut_query (p +:+ "?" +:+ q) = (p, bool_decide (q = ""), q).
Proof.
  intros Hp. destruct q as [|c q].
  - unfold url.cut_query. rewrite append_cons, append_nil_l.
    assert (strings.HasSuffix (p +:+ "?") "?" = true) as ->.
    { unfold strings.HasSuffix. rewrite length_append. simpl.
      replace (String.length p + 1 - 1)%nat with (String.length p + 0)%nat by lia.
      rewrite slice_from_append. simpl.
      rewrite bool_decide_true by lia. done. }
    rewrite CountByte_append, (proj2 (CountByte_absent "?" p) Hp). simpl.
    rewrite length_append. simpl.
    replace (String.length p + 1 - 1)%nat with (String.length p) by lia.
    by rewrite slice_to_append.
  - destruct (cut_query_spec p (String c q) Hp) as [forceQuery Hcut]. rewrite Hcut.
    destruct forceQuery; [|done]. exfalso.
    unfold url.cut_query in Hcut. rewrite append_cons, append_nil_l in Hcut.
    destruct (strings.HasSuffix _ _ && _); [done|].
    rewrite Cut_byte_found in Hcut by done. done.
Qed.

(** [getScheme] reads the same scheme with a query behind the rest. *)
Lemma getScheme_loop_with_query (p pre q : string) :
  url.getScheme_loop ((pre +:+ p) +:+ "?" +:+ q) (p +:+ "?" +:+ q) (String.length pre) =
  match url.getScheme_loop (pre +:+ p) p (String.length pre) with
  | inl err => inl err
  | inr (scheme, rest) => inr (scheme, rest +:+ "?" +:+ q)
  end.
Proof.
  revert pre. induction p as [|c p IH]; intros pre.
  - rewrite append_nil_l. reflexivity.
  - assert (∀ t : string, pre +:+ String c t = (pre +:+ String c "") +:+ t) as Hpre.
    { intros t. by rewrite append_assoc. }
    assert (S (String.length pre) = String.length (pre +:+ String c "")) as Hlen.
    { rewrite length_append. simpl. lia. }
    rewrite (append_cons c p). simpl.
    destruct (between "a" c "z" || between "A" c "Z").
    { rewrite (Hpre p), Hlen. apply IH. }
    destruct (between "0" c "9" || url.is_one_of c "+-.").
    { case_decide; [done|]. rewrite (Hpre p), Hlen. apply IH. }
    case_bool_decide; [|done].
    case_decide; [done|].
    by rewrite append_assoc, !slice_to_append.
Qed.

Lemma getScheme_with_query (p q : string) :
  url.getScheme (p +:+ "?" +:+ q) =
  match url.getScheme p with
  | inl err => inl err
  | inr (scheme, rest) => inr (scheme, rest +:+ "?" +:+ q)
  end.
Proof. apply (getScheme_loop_with_query p "" q). Qed.

(** A query behind a path changes the query of the URL parsed, and nothing
    else. *)
Lemma parse_with_query (p q : string) :
  has_byte "?" p = false → p ≠ "*" →
  url.parse (p +:+ "?" +:+ q) =
  if url.stringContainsCTLByte q
  then inl (ErrorString "net/url: invalid control character in URL")
  else of_success (with_query q) (url.parse p).
Proof.
  intros Hp Hstar. unfold url.parse.
  rewrite !stringContainsCTLByte_append.
  change (url.stringContainsCTLByte "?") with false. rewrite orb_false_l.
  destruct (url.stringContainsCTLByte p); simpl.
  { by destruct (url.stringContainsCTLByte q). }
  destruct (url.stringContainsCTLByte q); [done|].
  rewrite (bool_decide_false (p = "*")) by done.
  rewrite bool_decide_false.
  2:{ intros Hbad.
      assert (has_byte "?" (p +:+ "?" +:+ q) = has_byte "?" "*") as Hq by by rewrite Hbad.
      by rewrite has_byte_append, has_byte_append, orb_true_r in Hq. }
  rewrite getScheme_with_query.
  destruct (url.getScheme p) as [e|[scheme rest]] eqn:Hscheme; [done|].
  assert (has_byte "?" rest = false) as Hrest.
  { by eapply getScheme_loop_no_byte in Hscheme. }
  rewrite cut_query_force, cut_query_none by done.
  unfold of_success, with_query.
  repeat case_match; simplify_eq; done.
Qed.

Lemma Index_byte_append c (a b : string) :
  has_byte c a = false →
  strings.Index (a +:+ b) (String c "") =
  (λ i, String.length a + i)%nat <$> strings.Index b (String c "").
Proof.
  induction a as [|d a IH].
  - intros _. rewrite append_nil_l. by destruct (strings.Index b _).
  - rewrite has_byte_cons, append_cons, Index_cons. intros [Hd Hs]%orb_false_elim.
    apply bool_decide_eq_false in Hd.
    rewrite bool_decide_false by congruence. rewrite IH by done.
    by destruct (strings.Index b _).
Qed.

Lemma slice_to_append_more (a b : string) (n : nat) :
  strings.slice_to (String.length a + n) (a +:+ b) = a +:+ strings.slice_to n b.
Proof.
  induction a as [|d a IH]; [by rewrite !append_nil_l|].
  rewrite !append_cons. simpl. by rewrite IH.
Qed.

(** Cutting at a byte that the front of the string does not hold. *)
Lemma Cut_byte_append c (a b : string) :
  has_byte c a = false →
  strings.Cut (a +:+ b) (String c "") =
  (a +:+ (strings.Cut b (String c "")).1.1, (strings.Cut b (String c "")).1.2,
   (strings.Cut b (String c "")).2).
Proof.
  intros Ha. unfold strings.Cut. rewrite Index_byte_append by done.
  destruct (strings.Index b _) as [i|]; simpl; [|done].
  rewrite slice_to_append_more. do 2 f_equal.
  replace (String.length a + i + 1)%nat with (String.length a + (i + 1))%nat by lia.
  apply slice_from_append.
Qed.

Lemma unescape_check_no_percent (s : string) mode :
  mode ≠ url.encodeHost → mode ≠ url.encodeZone →
  has_byte "%" s = false → url.unescape_check s mode = None.
Proof.
  intros Hhost Hzone. induction s as [|c s IH]; [done|].
  rewrite has_byte_cons. intros [Hc%bool_decide_eq_false Hs]%orb_false_elim.
  rewrite unescape_check_cons by done. by apply IH.
Qed.

Lemma unescape_build_no_percent (s : string) mode :
  mode ≠ url.encodeQueryComponent →
  has_byte "%" s = false → url.unescape_build s mode = s.
Proof.
  intros Hmode. induction s as [|c s IH]; [done|].
  rewrite has_byte_cons. intros [Hc%bool_decide_eq_false Hs]%orb_false_elim.
  destruct (decide (c = "+"%char)) as [->|Hplus].
  - simpl. rewrite bool_decide_false by done. by rewrite IH.
  - rewrite unescape_build_cons by done. by rewrite IH.
Qed.

(** [parse] on a path that starts with one slash: no scheme, no authority;
    the outcome is that of [setPath]. *)
Lemma parse_slash_path (path : string) :
  strings.HasPrefix path "/" = true → strings.HasPrefix path "//" = false →
  has_byte "?" path = false →
  url.parse path =
  if url.stringContainsCTLByte path
  then inl (ErrorString "net/url: invalid control character in URL")
  else match url.setPath path with
       | inl err => inl err
       | inr (p, rawPath) =>
           inr {| url.Scheme := ""; url.Opaque := ""; url.User := None; url.Host := "";
                  url.Path := p; url.RawPath := rawPath; url.OmitHost := false;
                  url.ForceQuery := false; url.RawQuery := ""; url.Fragment := "";
                  url.RawFragment := "" |}
       end.
Proof.
  intros Hslash Hdouble Hquery. unfold url.parse.
  destruct (url.stringContainsCTLByte path); [done|].
  destruct path as [|c path]; [done|].
  simpl in Hslash. case_decide as Hc; [subst c|done].
  rewrite bool_decide_false by done.
  change (url.getScheme (String "/" path)) with
    (inr ("", String "/" path) : error + string * string).
  cbv beta iota zeta. rewrite cut_query_none by done. cbv beta iota zeta.
  change (strings.ToLower "") with "".
  assert (strings.HasPrefix (String "/" path) "/" = true) as -> by (simpl; by destruct path).
  rewrite Hdouble. simpl negb. cbv beta iota.
  destruct (strings.HasPrefix path "//"); simpl;
    by destruct (url.setPath _) as [e|[p rawPath]].
Qed.

(** The query of the URL parsed from a path, a question mark and [q]. *)
Lemma parse_ForceQuery (path q : string) (u : url.URL) :
  has_byte "?" path = false →
  url.parse (path +:+ "?" +:+ q) = inr u →
  url.ForceQuery u = bool_decide (q = "") ∧ url.RawQuery u = q.
Proof.
  intros Hpath. unfold url.parse.
  destruct (url.stringContainsCTLByte _); [done|].
  case_bool_decide as Hstar.
  { assert (has_byte "?" (path +:+ "?" +:+ q) = has_byte "?" "*") as Hbad by by rewrite Hstar.
    rewrite has_byte_append, has_byte_append, orb_true_r in Hbad. done. }
  destruct (url.getScheme _) as [e|[scheme rest]] eqn:Hscheme; [done|].
  assert (∃ p', has_byte "?" p' = false ∧ rest = p' +:+ "?" +:+ q) as (p' & Hp' & ->).
  { apply getScheme_loop_query in Hscheme as [->|?]; eauto. }
  rewrite cut_query_force by done.
  repeat case_match; intros Hu; simplify_eq; done.
Qed.

Lemma Join_no_CTL (l : list string) (sep : string) :
  Forall (λ s, url.stringContainsCTLByte s = false) l →
  url.stringContainsCTLByte sep = false →
  url.stringContainsCTLByte (strings.Join l sep) = false.
Proof.
  intros Hl Hsep. induction Hl as [|s l Hs Hl IH]; [done|].
  destruct l as [|s' l]; [done|].
  by rewrite Join_cons_cons, !stringContainsCTLByte_append, Hs, Hsep, IH.
Qed.

Lemma Join_pairs_empty (ps : list (string * string)) :
  strings.Join (pair_string <$> ps) "&" = "" ↔ ps = [].
Proof.
  split; [|by intros ->].
  destruct ps as [|p ps]; [done|]. intros Hjoin. exfalso.
  apply (f_equal String.length) in Hjoin. rewrite fmap_cons in Hjoin.
  destruct (pair_string <$> ps) as [|s l]; simpl in Hjoin.
  - unfold pair_string in Hjoin. rewrite !length_append in Hjoin. simpl in Hjoin. lia.
  - unfold pair_string in Hjoin. rewrite !length_append in Hjoin. simpl in Hjoin. lia.
Qed.

Lemma query_pairs_none range (query : gmap string (list string)) :
  range_ok range →
  query_pairs (range _ query) = [] ↔ ∀ k vs, query !! k = Some vs → vs = [].
Proof.
  intros Hrange. split.
  - intros Hnone k vs Hk.
    pose proof (query_pairs_of_key range query k Hrange) as Hkey.
    rewrite Hnone, Hk in Hkey. simpl in Hkey. by destruct vs.
  - intros Hempty. apply query_pairs_all_empty, Forall_forall. intros [k vs] Hkv.
    apply range_lookup in Hkv; [|done]. simpl. eauto.
Qed.

(** X15. A query mapping changes the query of the URL and nothing else.
    For a path without question mark and number sign (and other than the
    lone asterisk), and keys and values without number sign and control
    byte, [buildURL] on a mapping that is not empty returns the URL it
    returns for the path alone, with the joined pairs as its raw query; and
    it fails exactly when the path alone fails, with the same cause. *)
Theorem query_changes_query_only (range : iteration) (path : string)
    (query : gmap string (list string)) :
  range_ok range →
  query ≠ ∅ →
  has_byte "?" path = false → has_byte "#" path = false → path ≠ "*" →
  (∀ k vs, query !! k = Some vs →
     (url.stringContainsCTLByte k = false ∧ has_byte "#" k = false) ∧
     Forall (λ v, url.stringContainsCTLByte v = false ∧ has_byte "#" v = false) vs) →
  buildURL range path query =
  match buildURL range path ∅ with
  | inr u =>
      inr (with_query (strings.Join (pair_string <$> query_pairs (range _ query)) "&") u)
  | inl (URLError op _ err) => inl (URLError op (buildURL_string range path query) err)
  | inl err => inl err
  end.
Proof.
  intros Hrange Hne Hquery Hhash Hstar Hclean.
  rewrite buildURL_nonempty, buildURL_empty, buildURL_string_spec by done.
  set (q := strings.Join _ _).
  assert (Forall (λ p, (url.stringContainsCTLByte p.1 = false ∧ has_byte "#" p.1 = false) ∧
                       (url.stringContainsCTLByte p.2 = false ∧ has_byte "#" p.2 = false))
                 (query_pairs (range _ query))) as Hps.
  { apply Forall_forall. intros [k v] (vs & Hkvs & Hv)%elem_of_query_pairs.
    apply range_lookup in Hkvs; [|done].
    destruct (Hclean _ _ Hkvs) as [Hk Hvs]. split; [done|].
    by eapply Forall_forall in Hvs. }
  assert (url.stringContainsCTLByte q = false) as Hctl.
  { apply Join_no_CTL; [|done]. apply Forall_fmap.
    eapply Forall_impl; [done|]. intros p [[Hk _] [Hv _]]. simpl.
    unfold pair_string. by rewrite !stringContainsCTLByte_append, Hk, Hv. }
  assert (has_byte "#" q = false) as Hqhash.
  { apply Join_no_byte; [|done]. apply Forall_fmap.
    eapply Forall_impl; [done|]. intros p [[_ Hk] [_ Hv]]. simpl.
    by apply pair_string_no_byte. }
  unfold url.Parse. rewrite !Cut_byte_absent.
  - rewrite parse_with_query, Hctl by done.
    by destruct (url.parse path) as [e|u].
  - done.
  - by rewrite !has_byte_append, Hhash, Hqhash.
Qed.

Lemma query_changes_query_only_witness :
  buildURL in_map_order "/users" {["id" := ["7"]; "tag" := ["a"; "b"]]} =
  match buildURL in_map_order "/users" ∅ with
  | inr u => inr (with_query "id=7&tag=a&tag=b" u)
  | inl err => inl err
  end.
Proof.
  pose proof (query_changes_query_only in_map_order "/users"
                {["id" := ["7"]; "tag" := ["a"; "b"]]}) as Hq.
  rewrite Hq.
  - reflexivity.
  - intros V m. reflexivity.
  - apply (bool_decide_unpack _). vm_compute. exact I.
  - reflexivity.
  - reflexivity.
  - discriminate.
  - intros k vs [[<- <-]|[_ [<- <-]%lookup_singleton_Some]]%lookup_insert_Some.
    + split; [by split|]. repeat constructor.
    + split; [by split|]. repeat constructor.
Defined.

(** X16. The URL is marked with a forced query, the lone question mark,
    exactly when the mapping has keys but not a single value; and its raw
    query is empty exactly when the mapping has no value. (Path without
    question mark and number sign, keys and values without number sign.) *)
Theorem ForceQuery_keys_without_values (range : iteration) (path : string)
    (query : gmap string (list string)) (u : url.URL) :
  range_ok range →
  has_byte "?" path = false → has_byte "#" path = false →
  (∀ k vs, query !! k = Some vs →
     has_byte "#" k = false ∧ Forall (λ v, has_byte "#" v = false) vs) →
  buildURL range path query = inr u →
  (url.ForceQuery u = true ↔ query ≠ ∅ ∧ ∀ k vs, query !! k = Some vs → vs = []) ∧
  (url.RawQuery u = "" ↔ ∀ k vs, query !! k = Some vs → vs = []).
Proof.
  intros Hrange Hquery Hhash Hclean Hu.
  destruct (decide (query = ∅)) as [->|Hne].
  - rewrite buildURL_empty in Hu. unfold url.Parse in Hu.
    rewrite Cut_byte_absent in Hu by done.
    destruct (url.parse path) as [e|u0] eqn:Hparse; [done|].
    rewrite bool_decide_true in Hu by done. injection Hu as <-.
    apply parse_no_query in Hparse as [-> ->]; [|done].
    split; [by split; [|intros [? _]]|]. split; [|done].
    intros _ k vs Hk. by rewrite lookup_empty in Hk.
  - rewrite buildURL_nonempty in Hu by done.
    set (q := strings.Join _ _) in Hu.
    assert (has_byte "#" q = false) as Hqhash.
    { apply Join_no_byte; [|done]. apply Forall_fmap, Forall_forall.
      intros [k v] (vs & Hkvs & Hv)%elem_of_query_pairs.
      apply range_lookup in Hkvs; [|done].
      destruct (Hclean _ _ Hkvs) as [Hk Hvs]. simpl.
      apply pair_string_no_byte; [done..|]. by eapply Forall_forall in Hvs. }
    unfold url.Parse in Hu. rewrite Cut_byte_absent in Hu.
    2:{ by rewrite !has_byte_append, Hhash, Hqhash. }
    destruct (url.parse _) as [e|u0] eqn:Hparse; [done|].
    rewrite bool_decide_true in Hu by done. injection Hu as <-.
    apply parse_ForceQuery in Hparse as [-> ->]; [|done].
    rewrite bool_decide_eq_true. unfold q.
    rewrite Join_pairs_empty, query_pairs_none by done.
    split; [split; [by intros ? | by intros [_ ?]] | done].
Qed.

Lemma ForceQuery_keys_without_values_witness :
  (∃ u, buildURL in_map_order "/p" {["a" := []]} = inr u ∧ url.ForceQuery u = true) ∧
  (∃ u, buildURL in_map_order "/p" ∅ = inr u ∧ url.ForceQuery u = false).
Proof.
  split.
  - eexists. split; [reflexivity|].
    apply (ForceQuery_keys_without_values in_map_order "/p" {["a" := []]}).
    + intros V m. reflexivity.
    + reflexivity.
    + reflexivity.
    + intros k vs [<- <-]%lookup_singleton_Some. by split.
    + reflexivity.
    + split.
      * apply (bool_decide_unpack _). vm_compute. exact I.
      * by intros k vs [_ <-]%lookup_singleton_Some.
  - eexists. split; [reflexivity|]. reflexivity.
Defined.

(** What [buildURL] makes of a path that starts with one slash. *)
Lemma buildURL_slash_path range (path : string) (query : gmap string (list string))
    (u : url.URL) :
  strings.HasPrefix path "/" = true → strings.HasPrefix path "//" = false →
  has_byte "?" path = false → has_byte "#" path = false →
  buildURL range path query = inr u →
  url.stringContainsCTLByte path = false ∧
  ∃ p rawPath,
    url.setPath path = inr (p, rawPath) ∧
    url.Path u = p ∧ url.RawPath u = rawPath ∧ url.Scheme u = "" ∧
    url.Opaque u = "" ∧ url.User u = None ∧ url.Host u = "".
Proof.
  intros Hslash Hdouble Hquery Hhash. unfold buildURL, url.Parse.
  assert (path ≠ "*") as Hstar by by intros ->.
  case_bool_decide as Hsize.
  - rewrite Cut_byte_absent, parse_slash_path by done.
    destruct (url.stringContainsCTLByte path); [done|].
    destruct (url.setPath path) as [e|[p rawPath]]; [done|].
    rewrite bool_decide_true by done. intros [= <-]. split; [done|]. by exists p, rawPath.
  - rewrite buildURL_string_spec. set (q := strings.Join _ _).
    rewrite Cut_byte_append by done.
    rewrite (Cut_byte_append "#" "?" q) by done. simpl.
    rewrite parse_with_query, parse_slash_path by done.
    destruct (url.stringContainsCTLByte _); [done|].
    destruct (url.stringContainsCTLByte path); [done|].
    destruct (url.setPath path) as [e|[p rawPath]]; [done|]. simpl.
    case_bool_decide.
    + intros [= <-]. split; [done|]. by exists p, rawPath.
    + destruct (url.setFragment _) as [e|[f rf]]; [done|].
      intros [= <-]. split; [done|]. by exists p, rawPath.
Qed.

(** X17. The path of the event is the path of the request: for a path that
    starts with one slash and has no question mark and no number sign, the
    URL of the request built has no scheme and no host, and as its path the
    path of the event with its percent escapes decoded once; a path
    without percent sign is kept as it is. *)
Theorem path_reaches_handler (range : iteration) (c : option Context) (req : request)
    (r : http.Request.t) :
  strings.HasPrefix (request.Path req) "/" = true →
  strings.HasPrefix (request.Path req) "//" = false →
  has_byte "?" (request.Path req) = false →
  has_byte "#" (request.Path req) = false →
  Run_request range c req = Returns (inr r) →
  url.Path (http.Request.URL r) = url.unescape_build (request.Path req) url.encodePath ∧
  (has_byte "%" (request.Path req) = false →
   url.Path (http.Request.URL r) = request.Path req) ∧
  url.Scheme (http.Request.URL r) = "" ∧ url.Host (http.Request.URL r) = "" ∧
  url.Opaque (http.Request.URL r) = "" ∧ url.User (http.Request.URL r) = None.
Proof.
  intros Hslash Hdouble Hquery Hhash (u & Hu & -> & _)%Run_request_inr.
  apply buildURL_slash_path in Hu
    as (_ & p & rawPath & Hset & -> & _ & -> & -> & -> & ->); [|done..].
  unfold url.setPath, url.unescape in Hset.
  destruct (url.unescape_check _ _); [done|]. injection Hset as <- _.
  split; [done|]. split; [|done].
  intros Hpercent. by apply unescape_build_no_percent.
Qed.

Lemma path_reaches_handler_witness :
  (∃ r, Run_request in_map_order (Some Background)
          (request.mk "GET" "/api/users" None (Some {["id" := ["7"]]}) None None "" false)
        = Returns (inr r) ∧ url.Path (http.Request.URL r) = "/api/users") ∧
  (∃ r, Run_request in_map_order (Some Background) (get "/a%20b") = Returns (inr r) ∧
        url.Path (http.Request.URL r) = "/a b").
Proof.
  split.
  - eexists. split; [reflexivity|].
    refine (proj1 (proj2 (path_reaches_handler in_map_order (Some Background)
              (request.mk "GET" "/api/users" None (Some {["id" := ["7"]]}) None None "" false)
              _ eq_refl eq_refl eq_refl eq_refl eq_refl)) eq_refl).
  - eexists. split; [reflexivity|].
    refine (proj1 (path_reaches_handler in_map_order (Some Background) (get "/a%20b")
              _ eq_refl eq_refl eq_refl eq_refl eq_refl)).
Defined.

(** X18. A percent sign in the path that does not start a well-formed
    escape ends the run: for a path that starts with one slash and has no
    question mark and no number sign, [Run] returns an error and no reply,
    whatever the query, the body, the context (a nil one too) and the
    handler, which is not called. *)
Theorem path_bad_escape_fails (range : iteration) (h : http_Handler) (c : option Context)
    (req : request) :
  strings.HasPrefix (request.Path req) "/" = true →
  strings.HasPrefix (request.Path req) "//" = false →
  has_byte "?" (request.Path req) = false →
  has_byte "#" (request.Path req) = false →
  url.unescape_check (request.Path req) url.encodePath ≠ None →
  ∃ err, buildURL range (request.Path req) (QueryProvided range req) = inl err ∧
         Run range h c req = Returns (None, Some err).
Proof.
  intros Hslash Hdouble Hquery Hhash Hbad.
  destruct (buildURL range (request.Path req) (QueryProvided range req)) as [err|u] eqn:Hu.
  - exists err. split; [done|]. apply Run_request_inl.
    rewrite Run_request_cases. by rewrite Hu.
  - apply buildURL_slash_path in Hu as (_ & p & rawPath & Hset & _); [|done..].
    unfold url.setPath, url.unescape in Hset.
    by destruct (url.unescape_check _ _).
Qed.

Lemma path_bad_escape_fails_witness :
  ∃ err, buildURL in_map_order "/50%off" ∅ = inl err ∧
         Run in_map_order echo (Some Background) (get "/50%off") = Returns (None, Some err).
Proof.
  apply (path_bad_escape_fails in_map_order echo (Some Background) (get "/50%off")).
  - reflexivity.
  - reflexivity.
  - reflexivity.
  - reflexivity.
  - discriminate.
Defined.

(** X19. A control byte in the path ends the run: for a path with a control
    byte and no number sign, [Run] returns the parser's error for it and no
    reply, whatever the query, the body, the context (a nil one too) and the
    handler. *)
Theorem path_control_byte_fails (range : iteration) (h : http_Handler) (c : option Context)
    (req : request) :
  has_byte "#" (request.Path req) = false →
  url.stringContainsCTLByte (request.Path req) = true →
  ∃ s, Run range h c req =
       Returns (None, Some (URLError "parse" s
                  (ErrorString "net/url: invalid control character in URL"))).
Proof.
  intros Hhash Hctl.
  assert (∃ s, buildURL range (request.Path req) (QueryProvided range req) =
               inl (URLError "parse" s
                      (ErrorString "net/url: invalid control character in URL")))
    as [s Hs].
  { unfold buildURL, url.Parse. case_bool_decide.
    - rewrite Cut_byte_absent by done. unfold url.parse. rewrite Hctl. eauto.
    - rewrite buildURL_string_spec, Cut_byte_append by done. simpl.
      unfold url.parse. rewrite stringContainsCTLByte_append, Hctl. simpl. eauto. }
  exists s. apply Run_request_inl. rewrite Run_request_cases. by rewrite Hs.
Qed.

Lemma path_control_byte_fails_witness :
  ∃ s, Run in_map_order echo (Some Background)
         (get (String "/" (String "a" (String "010" "b")))) =
       Returns (None, Some (URLError "parse" s
                  (ErrorString "net/url: invalid control character in URL"))).
Proof.
  apply (path_control_byte_fails in_map_order echo (Some Background)
           (get (String "/" (String "a" (String "010" "b"))))).
  - reflexivity.
  - reflexivity.
Defined.

(** ** The query that the handler reads *)

Section read_back.
Context (range : iteration) (path : string) (query : gmap string (list string))
        (u : url.URL).
Hypothesis Hrange : range_ok range.
Hypothesis Hne : query ≠ ∅.
Hypothesis Hpath : has_byte "?" path = false.
Hypothesis Hhash : has_byte "#" path = false.
Hypothesis Hescaped : ∀ k vs, query !! k = Some vs →
  percent_escaped k = true ∧ Forall (λ v, percent_escaped v = true) vs.
Hypothesis Hu : buildURL range path query = inr u.

Lemma buildURL_pairs_of_query (p : string * string) :
  p ∈ query_pairs (range _ query) → ∃ vs, query !! p.1 = Some vs ∧ p.2 ∈ vs.
Proof.
  destruct p as [k v]. intros (vs & Hkvs & Hv)%elem_of_query_pairs.
  apply range_lookup in Hkvs; eauto.
Qed.

Lemma buildURL_Query (name : string) :
  url.Query u !! name =
  match (λ p, decoded p.2) <$>
          filter (λ p, decoded p.1 = name) (query_pairs (range _ query)) with
  | [] => None
  | vs => Some vs
  end.
Proof.
  pose proof Hu as Hparse. rewrite buildURL_nonempty in Hparse by done.
  apply (Query_of_pairs path _ u name Hpath Hhash); [|done].
  apply Forall_forall. intros p (vs & Hk & Hv)%buildURL_pairs_of_query.
  destruct (Hescaped _ _ Hk) as [? Hvs]. split; [done|].
  by eapply Forall_forall in Hvs.
Qed.

Lemma buildURL_Query_of_key (k : string) (vs : list string) :
  query !! k = Some vs →
  (∀ k2, is_Some (query !! k2) → decoded k2 = decoded k → k2 = k) →
  url.Query u !! decoded k = if vs is [] then None else Some (decoded <$> vs).
Proof.
  intros Hk Hdistinct. rewrite buildURL_Query.
  rewrite (filter_ext_elem _ (λ p, p.1 = k)).
  - rewrite query_pairs_of_key, Hk by done. simpl. rewrite <-list_fmap_compose.
    by destruct vs.
  - intros p (vs' & Hk' & _)%buildURL_pairs_of_query. split; [|by intros ->].
    apply Hdistinct; eauto.
Qed.

Lemma buildURL_Query_name (name : string) :
  is_Some (url.Query u !! name) → ∃ k, is_Some (query !! k) ∧ name = decoded k.
Proof.
  rewrite buildURL_Query.
  destruct (filter _ _) as [|p ps] eqn:Hfilter; [by intros [? [=]]|]. intros _.
  assert (p ∈ filter (λ p, decoded p.1 = name) (query_pairs (range _ query)))
    as [Hname (vs & Hk & _)%buildURL_pairs_of_query]%list_elem_of_filter
    by (rewrite Hfilter; left).
  exists p.1. split; [eauto | done].
Qed.
End read_back.

(** X20. The single-value query of an event reaches the handler decoded:
    when the event has no multi-value query, its single-value query is not
    empty and holds percent-escaped keys and values, and its path has no
    question mark and no number sign, the query of the URL of the request
    holds, for each key whose decoded form no other key shares, the decoded
    value alone, which [Get] returns; and it holds no name but the decoded
    keys. *)
Theorem single_value_query_reaches_handler (range : iteration) (c : option Context)
    (req : request) (r : http.Request.t) (q : gmap string string) :
  range_ok range →
  request.MultiValueQuery req = None →
  request.Query req = Some q →
  q ≠ ∅ →
  has_byte "?" (request.Path req) = false →
  has_byte "#" (request.Path req) = false →
  (∀ k v, q !! k = Some v → percent_escaped k = true ∧ percent_escaped v = true) →
  Run_request range c req = Returns (inr r) →
  (∀ k v, q !! k = Some v →
     (∀ k2, is_Some (q !! k2) → decoded k2 = decoded k → k2 = k) →
     url.Query (http.Request.URL r) !! decoded k = Some [decoded v] ∧
     url.Values_Get (url.Query (http.Request.URL r)) (decoded k) = decoded v) ∧
  (∀ name, is_Some (url.Query (http.Request.URL r) !! name) →
           ∃ k, is_Some (q !! k) ∧ name = decoded k).
Proof.
  intros Hrange Hmulti Hsingle Hne Hpath Hhash Hescaped (u & Hu & -> & _)%Run_request_inr.
  rewrite QueryProvided_single, Hsingle in Hu by done. simpl in Hu.
  assert ((λ v : string, [v]) <$> q ≠ ∅) as Hne'.
  { by rewrite fmap_empty_iff. }
  assert (∀ k vs, ((λ v : string, [v]) <$> q) !! k = Some vs →
            percent_escaped k = true ∧ Forall (λ v, percent_escaped v = true) vs)
    as Hescaped'.
  { intros k vs. rewrite lookup_fmap. destruct (q !! k) as [v|] eqn:Hk; [|done].
    intros [= <-]. destruct (Hescaped _ _ Hk). split; [done|]. by constructor. }
  split.
  - intros k v Hk Hdistinct.
    assert (url.Query u !! decoded k = Some [decoded v]) as Hfound.
    { rewrite (buildURL_Query_of_key range (request.Path req) _ u Hrange Hne' Hpath Hhash
                 Hescaped' Hu k [v]); [done| |].
      - by rewrite lookup_fmap, Hk.
      - intros k2. rewrite lookup_fmap, fmap_is_Some. apply Hdistinct. }
    split; [done|]. unfold url.Values_Get. by rewrite Hfound.
  - intros name Hname.
    destruct (buildURL_Query_name range (request.Path req) _ u Hrange Hne' Hpath Hhash
                Hescaped' Hu name Hname) as (k & Hk & ->).
    exists k. split; [|done]. by rewrite lookup_fmap, fmap_is_Some in Hk.
Qed.

Lemma single_value_query_reaches_handler_witness :
  ∃ r, Run_request in_map_order (Some Background)
         (request.mk "GET" "/search" (Some {["q" := "hello+world%21"]}) None None None
                     "" false) = Returns (inr r) ∧
       url.Values_Get (url.Query (http.Request.URL r)) "q" = "hello world!".
Proof.
  eexists. split; [reflexivity|].
  refine (proj2 (proj1 (single_value_query_reaches_handler in_map_order (Some Background)
            (request.mk "GET" "/search" (Some {["q" := "hello+world%21"]}) None None None
                        "" false) _ {["q" := "hello+world%21"]} _ _ _ _ _ _ _ _)
            "q" "hello+world%21" _ _)).
  - intros V m. reflexivity.
  - reflexivity.
  - reflexivity.
  - apply (bool_decide_unpack _). vm_compute. exact I.
  - reflexivity.
  - reflexivity.
  - intros k v [<- <-]%lookup_singleton_Some. by split.
  - reflexivity.
  - reflexivity.
  - by intros k2 [? [<- _]%lookup_singleton_Some] _.
Defined.

(** X21. The raw query string depends on the order in which Go visits the
    keys of the mapping; the query that the handler reads from it does not.
    For percent-escaped keys and values, keys with distinct decoded forms
    and a path without question mark and number sign, the URLs built under
    two orders have the same parsed query. *)
Theorem parsed_query_any_order (range1 range2 : iteration) (path : string)
    (query : gmap string (list string)) (u1 u2 : url.URL) :
  range_ok range1 →
  range_ok range2 →
  has_byte "?" path = false → has_byte "#" path = false →
  (∀ k vs, query !! k = Some vs →
     percent_escaped k = true ∧ Forall (λ v, percent_escaped v = true) vs) →
  (∀ k1 k2, is_Some (query !! k1) → is_Some (query !! k2) →
            decoded k1 = decoded k2 → k1 = k2) →
  buildURL range1 path query = inr u1 →
  buildURL range2 path query = inr u2 →
  url.Query u1 = url.Query u2.
Proof.
  intros H1 H2 Hpath Hhash Hescaped Hdistinct Hu1 Hu2.
  destruct (decide (query = ∅)) as [->|Hne].
  { rewrite buildURL_empty in Hu1, Hu2. congruence. }
  assert (∀ k, is_Some (query !! k) →
               url.Query u1 !! decoded k = url.Query u2 !! decoded k) as Hsame.
  { intros k [vs Hk].
    rewrite (buildURL_Query_of_key range1 path query u1 H1 Hne Hpath Hhash Hescaped Hu1 k vs),
            (buildURL_Query_of_key range2 path query u2 H2 Hne Hpath Hhash Hescaped Hu2 k vs);
      eauto. }
  apply map_eq. intros name.
  destruct (url.Query u1 !! name) as [vs1|] eqn:Hn1.
  - destruct (buildURL_Query_name range1 path query u1 H1 Hne Hpath Hhash Hescaped Hu1 name)
      as (k & Hk & ->); [eauto|].
    by rewrite <-Hsame, Hn1.
  - destruct (url.Query u2 !! name) as [vs2|] eqn:Hn2; [|done].
    destruct (buildURL_Query_name range2 path query u2 H2 Hne Hpath Hhash Hescaped Hu2 name)
      as (k & Hk & ->); [eauto|].
    by rewrite <-Hn1, <-Hn2, Hsame.
Qed.

Lemma parsed_query_any_order_witness :
  ∃ u1 u2,
    buildURL in_map_order "/p" {["a" := ["1"]; "b" := ["2"; "3"]]} = inr u1 ∧
    buildURL in_reverse_order "/p" {["a" := ["1"]; "b" := ["2"; "3"]]} = inr u2 ∧
    url.RawQuery u1 ≠ url.RawQuery u2 ∧
    url.Query u1 = url.Query u2.
Proof.
  eexists _, _. split; [reflexivity|]. split; [reflexivity|]. split; [discriminate|].
  apply (parsed_query_any_order in_map_order in_reverse_order "/p"
           {["a" := ["1"]; "b" := ["2"; "3"]]}).
  - intros V m. reflexivity.
  - intros V m. unfold in_reverse_order. by rewrite reverse_Permutation.
  - reflexivity.
  - reflexivity.
  - intros k vs [[<- <-]|[_ [<- <-]%lookup_singleton_Some]]%lookup_insert_Some.
    + split; [reflexivity|]. repeat constructor.
    + split; [reflexivity|]. repeat constructor.
  - intros k1 k2 [vs1 Hk1] [vs2 Hk2].
    apply lookup_insert_Some in Hk1 as [[<- _]|[_ [<- _]%lookup_singleton_Some]];
      apply lookup_insert_Some in Hk2 as [[<- _]|[_ [<- _]%lookup_singleton_Some]];
      try done; vm_compute; discriminate.
  - reflexivity.
  - reflexivity.
Defined.

(** ** The cases of the test suite *)

(** TestBuildURL and TestBuildURL_QueryParameterValues, each single value
    wrapped as [QueryProvided] wraps it. *)

Example test_path_only :
  of_success url.Path (buildURL in_map_order "/api/users" ∅) = inr "/api/users".
Proof. reflexivity. Qed.

Example test_encoded_query_values :
  of_success (λ u, (url.Path u, url.Query u))
    (buildURL in_map_order "/search" {["q" := ["hello%20world"]]})
  = inr ("/search", {["q" := ["hello world"]]}).
Proof. vm_compute. reflexivity. Qed.

Example test_multiple_query_params :
  of_success url.Query
    (buildURL in_map_order "/filter" {["page" := ["1"]; "limit" := ["10"]]})
  = inr {["page" := ["1"]; "limit" := ["10"]]}.
Proof. vm_compute. reflexivity. Qed.

Example test_path_with_special_chars :
  of_success (λ u, (url.RawPath u, url.Query u))
    (buildURL in_map_order "/api/v1/users%2F123" {["action" := ["view"]]})
  = inr ("/api/v1/users%2F123", {["action" := ["view"]]}).
Proof. vm_compute. reflexivity. Qed.

Example test_query_parameter_values :
  (λ kv : string * string,
     of_success (λ u, url.Values_Get (url.Query u) kv.1)
       (buildURL in_map_order "/test" {[kv.1 := [kv.2]]})) <$>
    [("name", "john"); ("name", "john%20doe"); ("query", "a%2Bb");
     ("company", "a%26b"); ("expr", "x%3D5"); ("flag", "")]
  = inr <$> ["john"; "john doe"; "a+b"; "a&b"; "x=5"; ""].
Proof. vm_compute. reflexivity. Qed.

(** TestLambdaHandler_Run. *)

Example test_post_with_text_body :
  reply_body (Run in_map_order echo (Some Background)
                (request.mk "POST" "/echo" None None None None "request body" false))
  = Some ("request body", false).
Proof. vm_compute. reflexivity. Qed.

Example test_post_with_base64_encoded_body :
  reply_body (Run in_map_order echo (Some Background)
                (request.mk "POST" "/echo" None None None None
                   (base64.EncodeToString (bytes_of_string "decoded content")) true))
  = Some ("decoded content", false).
Proof. vm_compute. reflexivity. Qed.

Example test_invalid_base64_body :
  Run in_map_order (writing (λ _, "should not reach")) (Some Background)
      (request.mk "POST" "/test" None None None None "not-valid-base64!!!" true)
  = Returns (None, Some (CorruptInputError 3)).
Proof. vm_compute. reflexivity. Qed.

Example test_binary_response_gets_base64_encoded :
  reply_body (Run in_map_order (replying ∅ [x00; x01; x02; xff; xfe]%byte) (Some Background)
                (get "/binary"))
  = Some (base64.EncodeToString [x00; x01; x02; xff; xfe]%byte, true).
Proof. vm_compute. reflexivity. Qed.

Example test_request_headers_passed_to_handler :
  reply_body (Run in_map_order
                (writing (λ r, http.Header_Get (http.Request.Header r) "X-Custom-Header"))
                (Some Background)
                (request.mk "GET" "/headers" None None
                   (Some {["X-Custom-Header" := "custom-value"]}) None "" false))
  = Some ("custom-value", false).
Proof. vm_compute. reflexivity. Qed.

Example test_host_header_set_on_request :
  reply_body (Run in_map_order (writing http.Request.Host) (Some Background)
                (request.mk "GET" "/host" None None
                   (Some {["Host" := "example.com"]}) None "" false))
  = Some ("example.com", false).
Proof. vm_compute. reflexivity. Qed.

Example test_query_parameters_in_URL :
  reply_body (Run in_map_order
                (writing (λ r, url.Values_Get (url.Query (http.Request.URL r)) "key"))
                (Some Background)
                (request.mk "GET" "/query" (Some {["key" := "value"]}) None None None "" false))
  = Some ("value", false).
Proof. vm_compute. reflexivity. Qed.

Example test_protocol_set_to_HTTP_1_1 :
  reply_body (Run in_map_order (writing http.Request.Proto) (Some Background) (get "/proto"))
  = Some ("HTTP/1.1", false).
Proof. vm_compute. reflexivity. Qed.

Example test_content_length_set_for_base64_body :
  of_request http.Request.ContentLength
    (Run_request in_map_order (Some Background)
       (request.mk "POST" "/length" None None None None
          (base64.EncodeToString (bytes_of_string "content")) true))
  = Some 7.
Proof. vm_compute. reflexivity. Qed.

(** TestLambdaHandler_HeaderCanonicalization. *)

Example test_header_canonicalization :
  (λ t : string * string * string,
     of_request (λ r, http.Header_Get (http.Request.Header r) t.2)
       (Run_request in_map_order (Some Background)
          (request.mk "GET" "/" None None (Some {[t.1.1 := t.1.2]}) None "" false))) <$>
    [("content-type", "application/json", "Content-Type");
     ("CONTENT-TYPE", "text/plain", "Content-Type");
     ("X-Custom-Header", "custom", "X-Custom-Header")]
  = Some <$> ["application/json"; "text/plain"; "custom"].
Proof. vm_compute. reflexivity. Qed.

(** TestHandler_NilPanics. *)

Example test_nil_handler_panics :
  Handler in_map_order None = Panics "Wrap called with nil handler".
Proof. reflexivity. Qed.
